(** * A shallow embedding of the rocket content-addressable store (cas.go)

    The development follows the layout of [cas.go]: the package constants,
    the key codec ([keyToString], [HashToKey]), the prefix resolver
    ([ResolveKey]), the import pipeline ([WriteACI]) and the store
    constructor ([NewStore]).  Go strings are byte strings and are embedded
    as [string]; byte slices are [list byte]; the two diskv namespaces are
    finite maps from keys to values. *)

From Stdlib.Strings Require Import Byte Ascii String.
From Stdlib Require Import NArith ZArith Lia.
From stdpp Require Import gmap strings list fin_maps.

Local Open Scope string_scope.

(** ** Outcomes of Go code

    A Go function either returns or panics.  Errors are ordinary return
    values and are modelled separately (see [error] below). *)

Inductive go (A : Type) : Type :=
| Ret (a : A)
| Panic (msg : string).
Arguments Ret {A} a.
Arguments Panic {A} msg.

(** ** Package constants *)

Module Consts.

(** [hashPrefix = "sha512-"] *)
Definition hashPrefix : string := "sha512-".

(** [lenHash = sha512.Size], the raw byte size of a SHA-512 sum. *)
Definition lenHash : nat := 64.

(** [lenHashKey = (lenHash / 2) * 2], half length, in hex characters. *)
Definition lenHashKey : nat := (lenHash / 2) * 2.

(** [lenKey = len(hashPrefix) + lenHashKey] *)
Definition lenKey : nat := String.length hashPrefix + lenHashKey.

End Consts.
Export Consts.

(** ** Formatting helpers: the [%x] verb and string slicing *)

(** One lowercase hexadecimal digit, as [fmt] prints it for [%x]. *)
Definition hexdigit (n : N) : ascii :=
  match n with
  | 0 => "0" | 1 => "1" | 2 => "2" | 3 => "3"
  | 4 => "4" | 5 => "5" | 6 => "6" | 7 => "7"
  | 8 => "8" | 9 => "9" | 10 => "a" | 11 => "b"
  | 12 => "c" | 13 => "d" | 14 => "e" | _ => "f"
  end%N%char.

(** [fmt.Sprintf("%x", k)] for a byte slice [k]: two digits per byte, high
    nibble first. *)
Fixpoint hex (k : list byte) : string :=
  match k with
  | [] => EmptyString
  | b :: k' =>
      String (hexdigit (Byte.to_N b / 16))
        (String (hexdigit (Byte.to_N b mod 16)) (hex k'))
  end.

(** The slice expression [s[lo:hi]] on a string; out-of-range bounds are a
    run-time panic. *)
Definition slice (s : string) (lo hi : nat) : go string :=
  if (lo <=? hi)%nat && (hi <=? String.length s)%nat
  then Ret (substring lo (hi - lo) s)
  else Panic "slice bounds out of range".

(** The characters [0-9a-f]. *)
Definition is_lower_hex (c : ascii) : bool :=
  let n := N_of_ascii c in
  ((48 <=? n) && (n <=? 57) || (97 <=? n) && (n <=? 102))%N.

Fixpoint all_chars (p : ascii -> bool) (s : string) : bool :=
  match s with
  | EmptyString => true
  | String c s' => p c && all_chars p s'
  end.

(** ** Key codec *)

(** [keyToString] takes a key and returns a shortened and prefixed
    hexadecimal string version. *)
Definition keyToString (k : list byte) : go string :=
  if negb (length k =? lenHash)%nat
  then Panic ("bad hash passed to hashToKey: " +:+ hex k)
  else slice (hashPrefix +:+ hex k) 0 lenKey.

(** The [hash.Hash] interface, as far as this package uses it: the bytes
    written so far and the function [Sum] applies to them. *)
Record Hash : Type := mkHash {
  written : list byte;
  digest : list byte -> list byte
}.

Definition Hash_Write (h : Hash) (p : list byte) : Hash :=
  {| written := written h ++ p; digest := digest h |}.

(** [h.Sum(nil)] *)
Definition Hash_Sum (h : Hash) : list byte := digest h (written h).

(** [HashToKey] takes a [hash.Hash], calculates its sum, and returns the
    string used as the key to store the data matching the hash. *)
Definition HashToKey (h : Hash) : go string :=
  let s := Hash_Sum h in
  keyToString s.

(** ** Errors and results

    An [error] value is what a Go function returns in its [error] position.
    [Errorf ctx e] stands for [fmt.Errorf(ctx ++ ": %v", e)]; the errors
    built from a fixed format in this file have a constructor each. *)

Inductive error : Type :=
| io_EOF
| ErrBufferFull
| ExtError (msg : string)
| Errorf (ctx : string) (cause : error)
| ErrNoKeysFound
| ErrAmbiguousKey (key : string)
| ErrVersionLesser (version expected : Z)
| ErrVersionGreater (version expected : Z).

(** A [(T, error)] return: either a value with a nil error, or an error. *)
Inductive result (A : Type) : Type :=
| Ok (a : A)
| Err (e : error).
Arguments Ok {A} a.
Arguments Err {A} e.

(** ** Readers

    An [io.Reader] over a finite stream: the bytes it delivers, then the
    error it ends with ([io_EOF] for a clean end of stream). *)
Record Reader : Type := mkReader {
  rdata : list byte;
  rerr : error
}.

(** [bufio.Reader]: bytes already buffered but not yet consumed, and the
    underlying reader with what it has still to deliver. *)
Record bufioReader : Type := mkBufio {
  bsize : nat;
  buf : list byte;
  rd : Reader
}.

Definition NewReaderSize (r : Reader) (size : nat) : bufioReader :=
  {| bsize := size; buf := []; rd := r |}.

(** [b.Peek(n)] returns the next [n] bytes without advancing the reader.  The
    buffer is filled from the underlying reader until it holds [n] bytes or
    the underlying reader has ended; when fewer than [n] bytes are returned
    the error says why the read is short. *)
Definition Peek (b : bufioReader) (n : nat)
  : (list byte * option error) * bufioReader :=
  if (bsize b <? n)%nat then ((buf b, Some ErrBufferFull), b)
  else
    let need := n - length (buf b) in
    let b' := {| bsize := bsize b;
                 buf := buf b ++ take need (rdata (rd b));
                 rd := {| rdata := drop need (rdata (rd b));
                          rerr := rerr (rd b) |} |} in
    let m := Nat.min (length (buf b')) n in
    ((take m (buf b'), if (m <? n)%nat then Some (rerr (rd b)) else None), b').

(** A [bufio.Reader] used as an [io.Reader]: buffered bytes first, then the
    rest of the underlying stream. *)
Definition bufio_Reader (b : bufioReader) : Reader :=
  {| rdata := buf b ++ rdata (rd b); rerr := rerr (rd b) |}.

(** ** Collaborators

    The parts of the program that live outside [cas.go]: the SHA-512
    function, archive type detection and manifest extraction (package
    [aci]), [decompress], JSON coding of manifests, and the helpers of the
    metadata database ([dbIsPopulated], [getDBVersion], [WriteACIInfo], the
    creation statements and the expected version). *)

Inductive FileType : Type :=
| TypeGzip | TypeBzip2 | TypeXz | TypeTar | TypeUnknown.

Record ACIInfo : Type := mkACIInfo {
  BlobKey : string;
  AppName : string;
  ImportTime : Z
}.

Class Deps : Type := {
  sha512_Sum : list byte -> list byte;
  DetectFileType : list byte -> result FileType;
  decompress : Reader -> FileType -> result Reader;
  ImageManifest : Type;
  Name : ImageManifest -> string;
  ManifestFromImage : list byte -> result ImageManifest;
  json_Marshal : ImageManifest -> result (list byte);
  json_Unmarshal : list byte -> result ImageManifest;
  Tx : Type;
  dbVersion : Z;
  dbCreateStmts : list string;
  dbIsPopulated : Tx -> result bool;
  tx_Exec : string -> Tx -> result Tx;
  getDBVersion : Tx -> result Z;
  WriteACIInfo : Tx -> ACIInfo -> result Tx
}.

(** Failures of the environment that one call may meet: each field is the
    error the named operation returns, if it fails. *)
Record Faults : Type := mkFaults {
  f_NewDB : option error;
  f_Begin : option error;
  f_Commit : option error;
  f_MkdirAll : option error;
  f_TempFile : option error;
  f_Copy : option error;
  f_Close : option error;
  f_Import : option error;
  f_Write : option error
}.

Definition no_faults : Faults :=
  mkFaults None None None None None None None None None.

(** ** The key-value engine (diskv) *)

Definition has_prefix (p k : string) : Prop := String.prefix p k = true.

#[global] Instance has_prefix_dec (p k : string) : Decision (has_prefix p k).
Proof. unfold has_prefix. apply bool_eq_dec. Defined.

Module diskv.

(** Modelled from the spec: the key-value engine is outside [cas.go]; a
    namespace is a finite map from keys to values, [Read] fails when the
    key is absent, [Write] and [Import] overwrite. *)
Definition Read (m : gmap string (list byte)) (key : string)
  : result (list byte) :=
  match m !! key with
  | Some v => Ok v
  | None => Err (ExtError "key not found")
  end.

(** Modelled from the spec: [ReadStream] is [Read] delivered as a reader
    that ends cleanly. *)
Definition ReadStream (m : gmap string (list byte)) (key : string)
  : result Reader :=
  match m !! key with
  | Some v => Ok {| rdata := v; rerr := io_EOF |}
  | None => Err (ExtError "key not found")
  end.

(** Modelled from the spec: [Write] has overwrite semantics; when the
    engine fails nothing is stored. *)
Definition Write (f : Faults) (m : gmap string (list byte))
    (key : string) (val : list byte) : result (gmap string (list byte)) :=
  match f_Write f with
  | Some e => Err e
  | None => Ok (<[key := val]> m)
  end.

(** Modelled from the spec: [WriteStream] writes what the reader delivers,
    and fails when the reader does. *)
Definition WriteStream (f : Faults) (m : gmap string (list byte))
    (key : string) (r : Reader) : result (gmap string (list byte)) :=
  match rerr r with
  | io_EOF => Write f m key (rdata r)
  | e => Err e
  end.

(** Modelled from the spec: [Import(srcFilename, dstKey, move)] places the
    content of a file already on disk under [dstKey]. *)
Definition Import (f : Faults) (m : gmap string (list byte))
    (content : list byte) (key : string)
  : result (gmap string (list byte)) :=
  match f_Import f with
  | Some e => Err e
  | None => Ok (<[key := content]> m)
  end.

(** Modelled from the spec: [listKeys], the sequence of all stored keys. *)
Definition Keys (m : gmap string (list byte)) : list string :=
  (map_to_list m).*1.

(** Modelled from the spec: the prefix-filtered variant of [listKeys].
    The result is the sequence of keys the channel delivers, in order,
    if the consumer keeps receiving.  The order is the engine's own; what
    [ResolveKey] returns does not depend on it. *)
Definition KeysPrefix (m : gmap string (list byte)) (prefix : string)
  : list string :=
  filter (has_prefix prefix) (Keys m).

End diskv.

(** ** The store *)

(** Sequencing of [(T, error)] returns: the first error is returned. *)
Definition result_bind {A B : Type} (r : result A) (k : A -> result B)
  : result B :=
  match r with
  | Ok a => k a
  | Err e => Err e
  end.

Notation "x <-? r ; k" := (result_bind r (fun x => k))
  (at level 100, r at next level, k at level 200, right associativity,
   format "'[v' x  <-?  r ; '/' k ']'").

Inductive storeType : Type := blobType | imageManifestType.

(** A scratch file, identified by its handle: what has been written to it.
    The name [ioutil.TempFile] picks is not modelled. *)
Record File : Type := mkFile {
  fcontent : list byte
}.

Section Cas.

Context `{D : Deps}.

(** [Store] encapsulates a content-addressable-storage for storing ACIs
    on disk: the base directory, the two diskv namespaces
    ([stores[blobType]] and [stores[imageManifestType]]) and the
    database. *)
Record Store : Type := mkStore {
  base : string;
  blob : gmap string (list byte);
  imageManifest : gmap string (list byte);
  db : Tx
}.

Definition stores (ds : Store) (t : storeType) : gmap string (list byte) :=
  match t with
  | blobType => blob ds
  | imageManifestType => imageManifest ds
  end.

Definition set_stores (ds : Store) (t : storeType)
    (m : gmap string (list byte)) : Store :=
  match t with
  | blobType =>
      {| base := base ds; blob := m;
         imageManifest := imageManifest ds; db := db ds |}
  | imageManifestType =>
      {| base := base ds; blob := blob ds;
         imageManifest := m; db := db ds |}
  end.

Definition set_db (ds : Store) (d : Tx) : Store :=
  {| base := base ds; blob := blob ds;
     imageManifest := imageManifest ds; db := d |}.

(** Modelled from the spec: [db.Do(fn)] runs [fn] in one transaction,
    commits when [fn] returns nil and rolls back when it returns an
    error. *)
Definition DB_Do (f : Faults) (fn : Tx -> result Tx) (d : Tx)
  : option error * Tx :=
  match f_Begin f with
  | Some e => (Some e, d)
  | None =>
      match fn d with
      | Err e => (Some e, d)
      | Ok tx =>
          match f_Commit f with
          | Some e => (Some e, d)
          | None => (None, tx)
          end
      end
  end.

(** *** NewStore *)

(** [for _, stmt := range dbCreateStmts { _, err = tx.Exec(stmt) ... }] *)
Fixpoint Exec_all (stmts : list string) (tx : Tx) : result Tx :=
  match stmts with
  | [] => Ok tx
  | stmt :: stmts' =>
      tx' <-? tx_Exec stmt tx;
      Exec_all stmts' tx'
  end.

(** The closure [fn] that [NewStore] hands to [db.Do]. *)
Definition NewStore_fn (tx : Tx) : result Tx :=
  ok <-? dbIsPopulated tx;
  tx <-? (if negb ok then Exec_all dbCreateStmts tx else Ok tx);
  version <-? getDBVersion tx;
  if (version <? dbVersion)%Z
  then Err (ErrVersionLesser version dbVersion)
  else if (version >? dbVersion)%Z
  then Err (ErrVersionGreater version dbVersion)
  else Ok tx.

(** [NewStore(base)], on a directory whose namespaces hold [blobs] and
    [manifests] and whose database is [d]. *)
Definition NewStore (f : Faults) (base : string)
    (blobs manifests : gmap string (list byte)) (d : Tx) : result Store :=
  let ds := {| base := base; blob := blobs;
               imageManifest := manifests; db := d |} in
  match f_NewDB f with
  | Some err => Err err
  | None =>
      match DB_Do f NewStore_fn d with
      | (Some err, _) => Err err
      | (None, d') => Ok (set_db ds d')
      end
  end.

(** *** tmpFile, tmpDir *)

Definition tmpDir (f : Faults) (ds : Store) : result string :=
  let dir := base ds +:+ "/tmp" in
  match f_MkdirAll f with
  | Some err => Err err
  | None => Ok dir
  end.

Definition tmpFile (f : Faults) (ds : Store) : result File :=
  dir <-? tmpDir f ds;
  match f_TempFile f with
  | Some err => Err err
  | None => Ok {| fcontent := [] |}
  end.

(** *** ResolveKey *)

(** A stored key of namespace [m] that has [p] as a prefix. *)
Definition key_matches (m : gmap string (list byte)) (p k : string)
  : Prop :=
  is_Some (m !! k) /\ has_prefix p k.

(** [if len(key) > lenKey { key = key[:lenKey] }]; the guard keeps the
    slice in range. *)
Definition truncateKey (key : string) : string :=
  if (lenKey <? String.length key)%nat then substring 0 lenKey key else key.

(** The state of the [for k = range ...] loop when it is left: the last
    key received, the counter, whether [cancel] was closed, and the keys
    the channel would still have delivered. *)
Record scan : Type := mkScan {
  last_key : string;
  keyCount : nat;
  cancelled : bool;
  unreceived : list string
}.

Fixpoint range_keys (ch : list string) (k : string) (keyCount : nat)
  : scan :=
  match ch with
  | [] => mkScan k keyCount false []
  | k' :: ch' =>
      let keyCount := S keyCount in
      if (1 <? keyCount)%nat
      then mkScan k' keyCount true ch'
      else range_keys ch' k' keyCount
  end.

Definition ResolveKey_scan (ds : Store) (key : string) : scan :=
  let key := truncateKey key in
  range_keys (diskv.KeysPrefix (stores ds blobType) key) EmptyString 0.

(** [ResolveKey] resolves a partial key to a full key by considering the
    key a prefix and using the store for resolution.  If the key is longer
    than the full key length, it is first truncated. *)
Definition ResolveKey (ds : Store) (key : string) : result string :=
  let key := truncateKey key in
  let s := range_keys (diskv.KeysPrefix (stores ds blobType) key)
             EmptyString 0 in
  if (keyCount s =? 0)%nat then Err ErrNoKeysFound
  else if negb (keyCount s =? 1)%nat then Err (ErrAmbiguousKey key)
  else Ok (last_key s).

(** *** ReadStream, WriteStream, GetImageManifest *)

Definition ReadStream (ds : Store) (key : string) : result Reader :=
  diskv.ReadStream (stores ds blobType) key.

Definition WriteStream (f : Faults) (ds : Store) (key : string)
    (r : Reader) : option error * Store :=
  match diskv.WriteStream f (stores ds blobType) key r with
  | Ok m => (None, set_stores ds blobType m)
  | Err e => (Some e, ds)
  end.

Definition GetImageManifest (ds : Store) (key : string)
  : result ImageManifest :=
  match diskv.Read (stores ds imageManifestType) key with
  | Err err => Err (Errorf "error retrieving image manifest" err)
  | Ok imj =>
      match json_Unmarshal imj with
      | Err err => Err (Errorf "error unmarshalling image manifest" err)
      | Ok im => Ok im
      end
  end.

(** *** WriteACI *)

(** Code that may return an error, may panic, and may change the store. *)
Definition M (A : Type) : Type := Store -> go (result A) * Store.

Definition ret {A : Type} (a : A) : M A := fun ds => (Ret (Ok a), ds).

Definition fail {A : Type} (e : error) : M A := fun ds => (Ret (Err e), ds).

Definition bind {A B : Type} (m : M A) (k : A -> M B) : M B :=
  fun ds =>
    match m ds with
    | (Ret (Ok a), ds') => k a ds'
    | (Ret (Err e), ds') => (Ret (Err e), ds')
    | (Panic msg, ds') => (Panic msg, ds')
    end.

Definition of_result {A : Type} (r : result A) : M A :=
  fun ds => (Ret r, ds).

Definition of_go {A : Type} (g : go A) : M A :=
  fun ds => match g with
            | Ret a => (Ret (Ok a), ds)
            | Panic msg => (Panic msg, ds)
            end.

(** [if err != nil { return "", fmt.Errorf(ctx ++ ": %v", err) }] *)
Definition wrap {A : Type} (ctx : string) (m : M A) : M A :=
  fun ds =>
    match m ds with
    | (Ret (Err e), ds') => (Ret (Err (Errorf ctx e)), ds')
    | other => other
    end.

(** [sha512.New()] *)
Definition sha512_New : Hash := {| written := []; digest := sha512_Sum |}.

(** [io.Copy(fh, io.TeeReader(dr, h))]: every byte read from [dr] goes to
    the file and to the hash. *)
Definition Copy_Tee (f : Faults) (fh : File) (dr : Reader) (h : Hash)
  : result (File * Hash) :=
  match f_Copy f with
  | Some err => Err err
  | None =>
      match rerr dr with
      | io_EOF =>
          Ok ({| fcontent := fcontent fh ++ rdata dr |},
              Hash_Write h (rdata dr))
      | err => Err err
      end
  end.

Definition File_Close (f : Faults) (fh : File) : result unit :=
  match f_Close f with
  | Some err => Err err
  | None => Ok tt
  end.

(** [ds.stores[t].Import(fh.Name(), key, true)] *)
Definition stores_Import (f : Faults) (t : storeType) (fh : File)
    (key : string) : M unit :=
  fun ds =>
    match diskv.Import f (stores ds t) (fcontent fh) key with
    | Ok m => (Ret (Ok tt), set_stores ds t m)
    | Err err => (Ret (Err err), ds)
    end.

(** [ds.stores[t].Write(key, val)] *)
Definition stores_Write (f : Faults) (t : storeType) (key : string)
    (val : list byte) : M unit :=
  fun ds =>
    match diskv.Write f (stores ds t) key val with
    | Ok m => (Ret (Ok tt), set_stores ds t m)
    | Err err => (Ret (Err err), ds)
    end.

(** [ds.db.Do(fn)] *)
Definition db_Do (f : Faults) (fn : Tx -> result Tx) : M unit :=
  fun ds =>
    match DB_Do f fn (db ds) with
    | (Some err, d) => (Ret (Err err), set_db ds d)
    | (None, d) => (Ret (Ok tt), set_db ds d)
    end.

Notation "x <~ m ;; k" := (bind m (fun x => k))
  (at level 100, m at next level, k at level 200, right associativity,
   format "'[v' x  <~  m ;; '/' k ']'").

(** [WriteACI] takes an ACI encapsulated in an [io.Reader], decompresses
    it if necessary, and then stores it in the store under a key based on
    the image ID (i.e. the hash of the uncompressed ACI). *)
Definition WriteACI (f : Faults) (now : Z) (r : Reader) : M string :=
  let br := NewReaderSize r 512 in
  let '((hd, err), br) := Peek br 512 in
  _ <~ match err with
       | None => ret tt
       | Some io_EOF => ret tt
       | Some err => fail (Errorf "error reading image header" err)
       end ;;
  typ <~ wrap "error detecting image type"
           (of_result (DetectFileType hd)) ;;
  dr <~ wrap "error decompressing image"
          (of_result (decompress (bufio_Reader br) typ)) ;;
  let h := sha512_New in
  fh <~ wrap "error creating image" (fun ds => (Ret (tmpFile f ds), ds)) ;;
  fh_h <~ wrap "error copying image" (of_result (Copy_Tee f fh dr h)) ;;
  let '(fh, h) := fh_h in
  im <~ wrap "error extracting image manifest"
          (of_result (ManifestFromImage (fcontent fh))) ;;
  _ <~ wrap "error closing image" (of_result (File_Close f fh)) ;;
  key <~ of_go (HashToKey h) ;;
  _ <~ wrap "error importing image" (stores_Import f blobType fh key) ;;
  imj <~ wrap "error marshalling image manifest"
           (of_result (json_Marshal im)) ;;
  _ <~ wrap "error importing image manifest"
         (stores_Write f imageManifestType key imj) ;;
  _ <~ wrap "error writing ACI Info"
         (db_Do f (fun tx =>
            let aciinfo := {| BlobKey := key;
                              AppName := Name im;
                              ImportTime := now |} in
            WriteACIInfo tx aciinfo)) ;;
  ret key.

(** The canonical contents of a stream: the bytes of the reader that
    [WriteACI] obtains from [decompress], which it copies and hashes. *)
Definition canonical (r : Reader) : option (list byte) :=
  let '((hd, _), br) := Peek (NewReaderSize r 512) 512 in
  match DetectFileType hd with
  | Ok typ =>
      match decompress (bufio_Reader br) typ with
      | Ok dr => Some (rdata dr)
      | Err _ => None
      end
  | Err _ => None
  end.

End Cas.


(** ** Dump

    What [Dump] prints, call by call of [fmt.Printf], with the arguments of
    each call. *)

Inductive printed : Type :=
| Entry (basepath key out : string)
| Total (keyCount : nat).

(** [diskvStores], by store type. *)
Definition diskvStores (t : storeType) : string :=
  match t with
  | blobType => "blob"
  | imageManifestType => "imageManifest"
  end.

(** A namespace in which every key has the length of a full key. *)
Definition full_keys (m : gmap string (list byte)) : Prop :=
  forall k, is_Some (m !! k) -> String.length k = lenKey.

(** The call of [fmt.Printf] that [Dump] makes for the key [key] of the
    namespace [s] under [basepath]: the value is cut to its first 128 bytes
    and printed raw, or as hexadecimal digits. *)
Definition dumped (asHex : bool) (basepath : string)
    (s : gmap string (list byte)) (key : string) (p : printed) : Prop :=
  exists val,
    s !! key = Some val /\
    p = Entry basepath key
          (if asHex then hex (take 128 val)
           else string_of_list_byte (take 128 val)).

Section Diagnostics.

Context `{D : Deps}.

(** [filepath.Join], of the Go library. *)
Variable filepath_Join : list string -> string.

(** The [BasePath] that [NewStore] gives the diskv store of type [t]. *)
Definition BasePath (ds : Store) (t : storeType) : string :=
  filepath_Join [base ds; "cas"; diskvStores t].

(** The loop [for key := range s.Keys(nil)] of [Dump], over the keys still
    to come: what it prints, and the counter it ends with or the panic it
    stops on. *)
Fixpoint Dump_keys (asHex : bool) (basepath : string)
    (s : gmap string (list byte)) (keys : list string) (keyCount : nat)
  : list printed * go nat :=
  match keys with
  | [] => ([], Ret keyCount)
  | key :: keys' =>
      match diskv.Read s key with
      | Err _ => ([], Panic ("key " +:+ key +:+ " had no value"))
      | Ok val =>
          let val := if (128 <? length val)%nat then take 128 val else val in
          let out := string_of_list_byte val in
          let out := if asHex then hex val else out in
          let '(ls, r) := Dump_keys asHex basepath s keys' (S keyCount) in
          (Entry basepath key out :: ls, r)
      end
  end.

(** The body of the outer loop of [Dump] for one store. *)
Definition Dump_store (asHex : bool) (ds : Store) (t : storeType)
  : list printed * go unit :=
  let '(ls, r) := Dump_keys asHex (BasePath ds t) (stores ds t)
                    (diskv.Keys (stores ds t)) 0 in
  match r with
  | Ret keyCount => ((ls ++ [Total keyCount])%list, Ret tt)
  | Panic msg => (ls, Panic msg)
  end.

(** [Dump(hex)]: the two stores in the order of [ds.stores]. *)
Definition Dump (asHex : bool) (ds : Store) : list printed * go unit :=
  let '(l1, r1) := Dump_store asHex ds blobType in
  match r1 with
  | Panic msg => (l1, Panic msg)
  | Ret _ =>
      let '(l2, r2) := Dump_store asHex ds imageManifestType in
      ((l1 ++ l2)%list, r2)
  end.

End Diagnostics.

(** ** A small instance

    Stand-ins for the collaborators, used to run the model on concrete
    inputs: a 64-byte sum that pads or cuts its input, a two-byte magic
    number for gzip whose payload is the rest of the stream, manifests that
    are their application name, and a database made of a stored version and
    the list of rows. *)
Module Example.

Definition sum64 (b : list byte) : list byte :=
  take 64 (b ++ repeat x00%byte 64).

Definition detect (hd : list byte) : result FileType :=
  match hd with
  | x1f :: x8b :: _ => Ok TypeGzip
  | [] => Err io_EOF
  | _ => Ok TypeTar
  end%byte.

Definition unwrap (r : Reader) (typ : FileType) : result Reader :=
  match typ with
  | TypeGzip => Ok {| rdata := drop 2 (rdata r); rerr := rerr r |}
  | TypeTar => Ok r
  | _ => Err (ExtError "unknown image filetype")
  end.

Definition manifest_of (content : list byte) : result string :=
  match content with
  | [] => Err (ExtError "missing manifest")
  | _ => Ok "example-app"
  end.

Definition table : Type := option Z * list ACIInfo.

#[export] Instance deps : Deps := {|
  sha512_Sum := sum64;
  DetectFileType := detect;
  decompress := unwrap;
  ImageManifest := string;
  Name := fun im => im;
  ManifestFromImage := manifest_of;
  json_Marshal := fun im => Ok (list_byte_of_string im);
  json_Unmarshal := fun imj => Ok (string_of_list_byte imj);
  Tx := table;
  dbVersion := 1;
  dbCreateStmts := ["CREATE TABLE version"; "CREATE TABLE aciinfo"];
  dbIsPopulated := fun tx => Ok (bool_decide (is_Some (fst tx)));
  tx_Exec := fun _ tx => Ok (Some 1%Z, snd tx);
  getDBVersion := fun tx =>
    match fst tx with
    | Some v => Ok v
    | None => Err (ExtError "no version")
    end;
  WriteACIInfo := fun tx info => Ok (fst tx, info :: snd tx)
|}.

Definition empty_store : Store :=
  {| base := "/var/lib/rkt"; blob := ∅; imageManifest := ∅;
     db := (Some 1%Z, []) |}.

(** A key of the canonical length [lenKey]. *)
Definition K71 : string :=
  "sha512-0000000000000000000000000000000000000000000000000000000000000000".

(** Two blobs written with [WriteStream] under keys longer than [lenKey]
    that share their first [lenKey] characters. *)
Definition long_store : Store :=
  snd (WriteStream no_faults
         (snd (WriteStream no_faults empty_store (K71 +:+ "a")
                 {| rdata := []; rerr := io_EOF |}))
         (K71 +:+ "b") {| rdata := []; rerr := io_EOF |}).

(** The store of two blobs with keys [sha512-aaaa] and [sha512-aabb]. *)
Definition two_store : Store :=
  snd (WriteStream no_faults
         (snd (WriteStream no_faults empty_store "sha512-aaaa"
                 {| rdata := []; rerr := io_EOF |}))
         "sha512-aabb" {| rdata := []; rerr := io_EOF |}).

(** The bytes [B] of an image and a gzip-typed stream that wraps them. *)
Definition B : list byte := [x75; x73; x74; x61; x72]%byte.

Definition gz : Reader := {| rdata := [x1f; x8b]%byte ++ B; rerr := io_EOF |}.

Definition tar : Reader := {| rdata := B; rerr := io_EOF |}.

(** The key of [B] under [sum64]. *)
Definition K_B : string :=
  "sha512-7573746172000000000000000000000000000000000000000000000000000000".

(** A stream that breaks after one byte. *)
Definition broken : Reader :=
  {| rdata := [x1f]%byte; rerr := ExtError "connection reset" |}.

(** An environment in which writing the manifest fails. *)
Definition write_fails : Faults :=
  mkFaults None None None None None None None None
           (Some (ExtError "disk full")).

(** The store with the single blob key [sha512-aaaa]. *)
Definition one_store : Store :=
  snd (WriteStream no_faults empty_store "sha512-aaaa"
         {| rdata := []; rerr := io_EOF |}).


(** The store with the single blob key [K71]. *)
Definition k71_store : Store :=
  snd (WriteStream no_faults empty_store K71
         {| rdata := []; rerr := io_EOF |}).

(** The store of [K71] and of a longer key that extends it. *)
Definition long_ab_store : Store :=
  snd (WriteStream no_faults k71_store (K71 +:+ "a")
         {| rdata := []; rerr := io_EOF |}).

(** Collaborators as in [deps], but for a database that refuses the second
    creation statement. *)
Definition deps_exec_fails : Deps := {|
  sha512_Sum := sum64;
  DetectFileType := detect;
  decompress := unwrap;
  ImageManifest := string;
  Name := fun im => im;
  ManifestFromImage := manifest_of;
  json_Marshal := fun im => Ok (list_byte_of_string im);
  json_Unmarshal := fun imj => Ok (string_of_list_byte imj);
  Tx := table;
  dbVersion := 1;
  dbCreateStmts := ["CREATE TABLE version"; "CREATE TABLE aciinfo";
                    "CREATE TABLE remote"];
  dbIsPopulated := fun tx => Ok (bool_decide (is_Some (fst tx)));
  tx_Exec := fun stmt tx =>
    if String.eqb stmt "CREATE TABLE aciinfo"
    then Err (ExtError "table exists")
    else Ok (Some 1%Z, snd tx);
  getDBVersion := fun tx =>
    match fst tx with
    | Some v => Ok v
    | None => Err (ExtError "no version")
    end;
  WriteACIInfo := fun tx info => Ok (fst tx, info :: snd tx)
|}.

End Example.
(** ** Basic facts about strings *)

Section StringFacts.

Lemma length_append (s t : string) :
  String.length (s +:+ t) = String.length s + String.length t.
Proof. induction s as [|c s IH]; simpl; [reflexivity | now rewrite IH]. Qed.

Lemma substring_length (s : string) (n : nat) :
  n <= String.length s -> String.length (substring 0 n s) = n.
Proof.
  revert n; induction s as [|c s IH]; intros [|n] H; simpl in *;
    try reflexivity; try lia.
  rewrite IH; lia.
Qed.

Lemma substring_all (s : string) (n : nat) :
  String.length s <= n -> substring 0 n s = s.
Proof.
  revert n; induction s as [|c s IH]; intros [|n] H; simpl in *;
    try reflexivity; try lia.
  rewrite IH; [reflexivity | lia].
Qed.

Lemma substring_append_l (s t : string) (n : nat) :
  n <= String.length s -> substring 0 n (s +:+ t) = substring 0 n s.
Proof.
  revert n; induction s as [|c s IH]; intros [|n] H; simpl in *;
    try reflexivity; try lia.
  - now destruct t.
  - rewrite IH; [reflexivity | lia].
Qed.

Lemma substring_append_r (s t : string) (n : nat) :
  substring 0 (String.length s + n) (s +:+ t) = s +:+ substring 0 n t.
Proof. induction s as [|c s IH]; simpl; [reflexivity | now rewrite IH]. Qed.


Lemma all_chars_substring (p : ascii -> bool) (s : string) (n : nat) :
  all_chars p s = true -> all_chars p (substring 0 n s) = true.
Proof.
  revert n; induction s as [|c s IH]; intros [|n] H; simpl in *;
    try reflexivity.
  apply andb_prop in H as [Hc Hs]. rewrite Hc, IH; auto.
Qed.

End StringFacts.

(** ** Facts about [%x] *)

Section HexFacts.

Lemma hex_length (k : list byte) : String.length (hex k) = 2 * length k.
Proof. induction k as [|b k IH]; simpl; [reflexivity | rewrite IH; lia]. Qed.

Lemma hexdigit_lower (n : N) : is_lower_hex (hexdigit n) = true.
Proof.
  destruct n as [|p]; [reflexivity|].
  do 4 (destruct p as [p|p|]; try reflexivity).
Qed.

Lemma hex_lower (k : list byte) : all_chars is_lower_hex (hex k) = true.
Proof.
  induction k as [|b k IH]; simpl; [reflexivity|].
  now rewrite !hexdigit_lower, IH.
Qed.


Lemma hex_take (k : list byte) (n : nat) :
  substring 0 (2 * n) (hex k) = hex (take n k).
Proof.
  revert k; induction n as [|n IH]; intros k.
  - simpl. now destruct (hex k).
  - destruct k as [|b k]; [reflexivity|].
    replace (2 * S n) with (S (S (2 * n))) by lia.
    cbn [hex take substring]. now rewrite IH.
Qed.

End HexFacts.

(** What [keyToString] returns on a well-sized sum. *)
Lemma keyToString_ok (k : list byte) :
  length k = lenHash ->
  keyToString k = Ret (hashPrefix +:+ substring 0 lenHashKey (hex k)).
Proof.
  intros Hk. unfold keyToString, slice.
  rewrite Hk, Nat.eqb_refl. cbn [negb].
  rewrite length_append, hex_length, Hk.
  change (0 <=? lenKey)%nat with true.
  change (lenKey <=? String.length hashPrefix + 2 * lenHash)%nat with true.
  cbn [andb]. f_equal.
Qed.

(** C1: for every digest of exactly 64 bytes, [keyToString] (and so
    [HashToKey] on a hash whose sum is that digest) returns ["sha512-"]
    followed by exactly [lenHashKey] lowercase hexadecimal characters, which
    are the first half of the digest's 128-character hex form; the key has
    the fixed total length [lenKey]. *)
Theorem C1_key_format (d : list byte) :
  length d = 64 ->
  exists hx : string,
    keyToString d = Ret ("sha512-" +:+ hx) /\
    (forall h : Hash, Hash_Sum h = d -> HashToKey h = Ret ("sha512-" +:+ hx)) /\
    String.length hx = lenHashKey /\
    all_chars is_lower_hex hx = true /\
    String.length (hex d) = 128 /\
    hx = substring 0 (128 / 2) (hex d) /\
    hx = hex (take 32 d) /\
    String.length ("sha512-" +:+ hx) = lenKey.
Proof.
  intros Hd.
  assert (Hlen : String.length (hex d) = 128) by (rewrite hex_length; lia).
  exists (substring 0 lenHashKey (hex d)).
  assert (Hhx : String.length (substring 0 lenHashKey (hex d)) = lenHashKey).
  { apply substring_length. rewrite Hlen. vm_compute. lia. }
  repeat split.
  - now apply keyToString_ok.
  - intros h Hh. unfold HashToKey. rewrite Hh. now apply keyToString_ok.
  - exact Hhx.
  - apply all_chars_substring, hex_lower.
  - exact Hlen.
  - apply (hex_take d 32).
  - rewrite length_append, Hhx. reflexivity.
Qed.

Lemma C1_key_format_witness :
  exists hx : string,
    keyToString (repeat x00%byte 64) = Ret ("sha512-" +:+ hx) /\
    (forall h : Hash, Hash_Sum h = repeat x00%byte 64 ->
                      HashToKey h = Ret ("sha512-" +:+ hx)) /\
    String.length hx = lenHashKey /\
    all_chars is_lower_hex hx = true /\
    String.length (hex (repeat x00%byte 64)) = 128 /\
    hx = substring 0 (128 / 2) (hex (repeat x00%byte 64)) /\
    hx = hex (take 32 (repeat x00%byte 64)) /\
    String.length ("sha512-" +:+ hx) = lenKey.
Proof. apply (C1_key_format (repeat x00%byte 64)). reflexivity. Defined.

(** C8: [keyToString] (and so [HashToKey]) panics, and returns nothing, on
    every byte slice whose length is not [lenHash] (64). *)
Theorem C8_bad_length_panics (k : list byte) :
  length k <> lenHash ->
  keyToString k = Panic ("bad hash passed to hashToKey: " +:+ hex k) /\
  (forall h : Hash, Hash_Sum h = k ->
     HashToKey h = Panic ("bad hash passed to hashToKey: " +:+ hex k)).
Proof.
  intros Hk.
  assert (Hp : keyToString k
               = Panic ("bad hash passed to hashToKey: " +:+ hex k)).
  { unfold keyToString. apply Nat.eqb_neq in Hk. now rewrite Hk. }
  split; [exact Hp|].
  intros h Hh. unfold HashToKey. now rewrite Hh.
Qed.

Lemma C8_bad_length_panics_witness :
  keyToString [x01%byte]
  = Panic ("bad hash passed to hashToKey: " +:+ hex [x01%byte]) /\
  (forall h : Hash, Hash_Sum h = [x01%byte] ->
     HashToKey h
     = Panic ("bad hash passed to hashToKey: " +:+ hex [x01%byte])).
Proof. apply (C8_bad_length_panics [x01%byte]). vm_compute. lia. Defined.

(** ** The resolver *)

Section Resolver.

Context `{D : Deps}.

Lemma elem_of_KeysPrefix (m : gmap string (list byte)) (p k : string) :
  k ∈ diskv.KeysPrefix m p <-> key_matches m p k.
Proof.
  unfold diskv.KeysPrefix, diskv.Keys, key_matches.
  rewrite list_elem_of_filter, list_elem_of_fmap. split.
  - intros [Hp [[k' v] [-> Hin]]]. split; [|exact Hp].
    apply elem_of_map_to_list in Hin. simpl. eauto.
  - intros [[v Hv] Hp]. split; [exact Hp|].
    exists (k, v). split; [reflexivity|]. now apply elem_of_map_to_list.
Qed.

Lemma NoDup_KeysPrefix (m : gmap string (list byte)) (p : string) :
  NoDup (diskv.KeysPrefix m p).
Proof. apply NoDup_filter, NoDup_fst_map_to_list. Qed.

Lemma has_prefix_empty (k : string) : has_prefix EmptyString k.
Proof. unfold has_prefix. now destruct k. Qed.

Lemma KeysPrefix_empty_prefix (m : gmap string (list byte)) :
  diskv.KeysPrefix m EmptyString = diskv.Keys m.
Proof.
  unfold diskv.KeysPrefix. induction (diskv.Keys m) as [|k l IH].
  - reflexivity.
  - rewrite filter_cons_True by apply has_prefix_empty. now rewrite IH.
Qed.

Lemma length_Keys (m : gmap string (list byte)) :
  length (diskv.Keys m) = size m.
Proof. unfold diskv.Keys. now rewrite length_fmap, length_map_to_list. Qed.

(** The loop, by the number of keys the channel delivers. *)
Lemma range_keys_cases (ch : list string) :
  range_keys ch EmptyString 0 =
  match ch with
  | [] => mkScan EmptyString 0 false []
  | [k] => mkScan k 1 false []
  | _ :: k2 :: ch' => mkScan k2 2 true ch'
  end.
Proof. destruct ch as [|k1 [|k2 ch']]; reflexivity. Qed.

Lemma ResolveKey_cases (ds : Store) (key : string) :
  ResolveKey ds key =
  match diskv.KeysPrefix (blob ds) (truncateKey key) with
  | [] => Err ErrNoKeysFound
  | [k] => Ok k
  | _ :: _ :: _ => Err (ErrAmbiguousKey (truncateKey key))
  end.
Proof.
  unfold ResolveKey. rewrite range_keys_cases. cbn [stores].
  destruct (diskv.KeysPrefix (blob ds) (truncateKey key)) as [|k1 [|k2 ch']];
    reflexivity.
Qed.

Lemma truncateKey_short (key : string) :
  String.length key <= lenKey -> truncateKey key = key.
Proof.
  intros Hk. unfold truncateKey.
  destruct (Nat.ltb_spec lenKey (String.length key)); [lia | reflexivity].
Qed.

Lemma truncateKey_long (key : string) :
  lenKey < String.length key -> truncateKey key = substring 0 lenKey key.
Proof.
  intros Hk. unfold truncateKey.
  destruct (Nat.ltb_spec lenKey (String.length key)); [reflexivity | lia].
Qed.

Lemma truncateKey_length (key : string) :
  String.length (truncateKey key) <= lenKey.
Proof.
  unfold truncateKey.
  destruct (Nat.ltb_spec lenKey (String.length key)); [|assumption].
  rewrite substring_length; lia.
Qed.

Lemma truncateKey_append (fullKey suffix : string) :
  String.length fullKey = lenKey ->
  truncateKey (fullKey +:+ suffix) = fullKey.
Proof.
  intros Hk. unfold truncateKey. rewrite length_append.
  destruct (Nat.ltb_spec lenKey (String.length fullKey + String.length suffix)).
  - rewrite substring_append_l by lia. apply substring_all. lia.
  - destruct suffix as [|c suffix]; simpl in *; [|lia].
    clear. induction fullKey as [|c s IH]; [reflexivity|].
    change (String c (s +:+ EmptyString) = String c s). now rewrite IH.
Qed.

Lemma ResolveKey_truncated (ds : Store) (key : string) :
  ResolveKey ds key = ResolveKey ds (truncateKey key).
Proof.
  rewrite !ResolveKey_cases.
  now rewrite (truncateKey_short (truncateKey key))
    by apply truncateKey_length.
Qed.

(** The three shapes of the list of matching keys. *)
Lemma KeysPrefix_none (m : gmap string (list byte)) (p : string) :
  (forall k, ~ key_matches m p k) -> diskv.KeysPrefix m p = [].
Proof.
  intros Hno. destruct (diskv.KeysPrefix m p) as [|k l] eqn:E; [reflexivity|].
  exfalso. apply (Hno k), elem_of_KeysPrefix. rewrite E. left.
Qed.

Lemma KeysPrefix_one (m : gmap string (list byte)) (p k : string) :
  key_matches m p k ->
  (forall k', key_matches m p k' -> k' = k) ->
  diskv.KeysPrefix m p = [k].
Proof.
  intros Hk Huniq.
  pose proof (NoDup_KeysPrefix m p) as Hnd.
  apply elem_of_KeysPrefix in Hk.
  assert (Hall : forall k', k' ∈ diskv.KeysPrefix m p -> k' = k).
  { intros k' Hin. now apply Huniq, elem_of_KeysPrefix. }
  destruct (diskv.KeysPrefix m p) as [|a [|b l]].
  - inversion Hk.
  - f_equal. apply Hall. left.
  - exfalso. apply NoDup_cons in Hnd as [Hnotin _]. apply Hnotin.
    rewrite (Hall a) by left.
    rewrite <- (Hall b) at 1 by (right; left). left.
Qed.

Lemma KeysPrefix_many (m : gmap string (list byte)) (p k1 k2 : string) :
  k1 <> k2 -> key_matches m p k1 -> key_matches m p k2 ->
  exists a b l, diskv.KeysPrefix m p = a :: b :: l.
Proof.
  intros Hne H1 H2.
  apply elem_of_KeysPrefix in H1. apply elem_of_KeysPrefix in H2.
  destruct (diskv.KeysPrefix m p) as [|a [|b l]].
  - inversion H1.
  - apply list_elem_of_singleton in H1. apply list_elem_of_singleton in H2.
    congruence.
  - eauto.
Qed.

End Resolver.

Section ResolverClaims.

Context `{D : Deps}.

(** C4 (amended): for every input string, with [nk] the input truncated to
    [lenKey]: [ResolveKey] returns the error [no keys found] when no
    stored blob key has [nk] as a prefix; returns the key when exactly one
    has; and when two or more have, returns the ambiguous-key error
    carrying [nk] (which is the input itself when the input is at most
    [lenKey] long), having received exactly two keys from the scan and
    closed [cancel], the remaining keys being left unreceived. *)
Theorem C4_ResolveKey_outcomes (ds : Store) (key : string) :
  ((forall k, ~ key_matches (blob ds) (truncateKey key) k) ->
     ResolveKey ds key = Err ErrNoKeysFound) /\
  (forall k,
     key_matches (blob ds) (truncateKey key) k ->
     (forall k', key_matches (blob ds) (truncateKey key) k' -> k' = k) ->
     ResolveKey ds key = Ok k) /\
  ((exists k1 k2, k1 <> k2 /\
      key_matches (blob ds) (truncateKey key) k1 /\
      key_matches (blob ds) (truncateKey key) k2) ->
     ResolveKey ds key = Err (ErrAmbiguousKey (truncateKey key)) /\
     keyCount (ResolveKey_scan ds key) = 2 /\
     cancelled (ResolveKey_scan ds key) = true /\
     exists a b,
       diskv.KeysPrefix (blob ds) (truncateKey key)
       = a :: b :: unreceived (ResolveKey_scan ds key)) /\
  (String.length key <= lenKey -> truncateKey key = key).
Proof.
  split; [|split; [|split]].
  - intros Hno. rewrite ResolveKey_cases.
    now rewrite (KeysPrefix_none _ _ Hno).
  - intros k Hk Huniq. rewrite ResolveKey_cases.
    now rewrite (KeysPrefix_one _ _ _ Hk Huniq).
  - intros (k1 & k2 & Hne & H1 & H2).
    destruct (KeysPrefix_many _ _ _ _ Hne H1 H2) as (a & b & l & E).
    rewrite ResolveKey_cases. unfold ResolveKey_scan.
    rewrite range_keys_cases. cbn [stores]. rewrite E. cbn.
    repeat split. now exists a, b.
  - apply truncateKey_short.
Qed.

(** C5: for every key [fullKey] of the canonical length [lenKey] and every
    suffix, [ResolveKey (fullKey ++ suffix)] is [ResolveKey fullKey], scan
    included; any input longer than [lenKey] is looked up by its first
    [lenKey] characters. *)
Theorem C5_truncation_safety (ds : Store) (fullKey suffix : string) :
  String.length fullKey = lenKey ->
  ResolveKey ds (fullKey +:+ suffix) = ResolveKey ds fullKey /\
  ResolveKey_scan ds (fullKey +:+ suffix) = ResolveKey_scan ds fullKey /\
  (forall key, lenKey < String.length key ->
     ResolveKey ds key = ResolveKey ds (substring 0 lenKey key)).
Proof.
  intros Hk.
  assert (E1 : truncateKey (fullKey +:+ suffix) = fullKey)
    by now apply truncateKey_append.
  assert (E2 : truncateKey fullKey = fullKey)
    by (apply truncateKey_short; lia).
  split; [|split].
  - unfold ResolveKey. now rewrite E1, E2.
  - unfold ResolveKey_scan. now rewrite E1, E2.
  - intros key Hlong. rewrite (ResolveKey_truncated ds key).
    now rewrite truncateKey_long.
Qed.

(** C10: [ResolveKey] does not look at the format of its input.  Any
    string that is a prefix of the only stored key resolves to it; the
    empty string is a prefix of every stored key, so resolving it gives
    [no keys found] on an empty blob namespace, the key when there is
    exactly one, and the ambiguous-key error when there are two or
    more. *)
Theorem C10_no_format_validation (ds : Store) :
  (forall key k v,
     blob ds = {[ k := v ]} -> has_prefix (truncateKey key) k ->
     ResolveKey ds key = Ok k) /\
  (forall k, is_Some (blob ds !! k) ->
     key_matches (blob ds) (truncateKey EmptyString) k) /\
  (size (blob ds) = 0 -> ResolveKey ds EmptyString = Err ErrNoKeysFound) /\
  (forall k v, blob ds = {[ k := v ]} -> ResolveKey ds EmptyString = Ok k) /\
  (2 <= size (blob ds) ->
     ResolveKey ds EmptyString = Err (ErrAmbiguousKey EmptyString)).
Proof.
  assert (Hone : forall key k v,
             blob ds = {[ k := v ]} -> has_prefix (truncateKey key) k ->
             ResolveKey ds key = Ok k).
  { intros key k v Hm Hp. rewrite ResolveKey_cases.
    rewrite (KeysPrefix_one _ _ k); [reflexivity | |].
    - split; [|exact Hp]. rewrite Hm, lookup_singleton_eq. eauto.
    - intros k' [[v' Hv'] _]. rewrite Hm in Hv'.
      apply lookup_singleton_Some in Hv' as [? _]. congruence. }
  split; [exact Hone|]. split; [|split; [|split]].
  - intros k Hk. split; [exact Hk | apply has_prefix_empty].
  - intros Hsz. rewrite ResolveKey_cases.
    change (truncateKey EmptyString) with EmptyString.
    rewrite KeysPrefix_empty_prefix.
    pose proof (length_Keys (blob ds)) as Hl. rewrite Hsz in Hl.
    now destruct (diskv.Keys (blob ds)).
  - intros k v Hm. apply (Hone EmptyString k v Hm), has_prefix_empty.
  - intros Hsz. rewrite ResolveKey_cases.
    change (truncateKey EmptyString) with EmptyString.
    rewrite KeysPrefix_empty_prefix.
    pose proof (length_Keys (blob ds)) as Hl.
    destruct (diskv.Keys (blob ds)) as [|a [|b l]];
      simpl in Hl; [lia | lia | reflexivity].
Qed.

End ResolverClaims.

Section ResolverExamples.

Import Example.


Lemma C4_ResolveKey_outcomes_witness :
  ResolveKey two_store "sha512-zz" = Err ErrNoKeysFound /\
  ResolveKey two_store "sha512-aaaa" = Ok "sha512-aaaa" /\
  ResolveKey two_store "sha512-aa" = Err (ErrAmbiguousKey "sha512-aa") /\
  keyCount (ResolveKey_scan two_store "sha512-aa") = 2 /\
  truncateKey "sha512-aa" = "sha512-aa".
Proof.
  split; [|split; [|split; [|split]]].
  - apply (C4_ResolveKey_outcomes two_store "sha512-zz").
    intros k Hk. apply elem_of_KeysPrefix in Hk.
    vm_compute in Hk. inversion Hk.
  - apply (C4_ResolveKey_outcomes two_store "sha512-aaaa").
    + apply elem_of_KeysPrefix. vm_compute. left.
    + intros k' Hk'. apply elem_of_KeysPrefix in Hk'.
      vm_compute in Hk'. now apply list_elem_of_singleton in Hk'.
  - apply (C4_ResolveKey_outcomes two_store "sha512-aa").
    exists "sha512-aaaa", "sha512-aabb". split; [discriminate|].
    split; apply elem_of_KeysPrefix; vm_compute;
      [left | right; left].
  - apply (C4_ResolveKey_outcomes two_store "sha512-aa").
    exists "sha512-aaaa", "sha512-aabb". split; [discriminate|].
    split; apply elem_of_KeysPrefix; vm_compute;
      [left | right; left].
  - apply (C4_ResolveKey_outcomes two_store "sha512-aa").
    vm_compute. lia.
Defined.

(** C4 as stated fails: two stored keys match the normalized input, and
    the ambiguous-key error carries the truncated key, not the original
    input. *)
Lemma C4_counterexample :
  (K71 +:+ "a" <> K71 +:+ "b" /\
   key_matches (blob long_store) (truncateKey (K71 +:+ "zzz")) (K71 +:+ "a") /\
   key_matches (blob long_store) (truncateKey (K71 +:+ "zzz")) (K71 +:+ "b")) /\
  ResolveKey long_store (K71 +:+ "zzz") = Err (ErrAmbiguousKey K71) /\
  ResolveKey long_store (K71 +:+ "zzz")
  <> Err (ErrAmbiguousKey (K71 +:+ "zzz")).
Proof.
  split; [|split].
  - split; [discriminate|].
    split; apply elem_of_KeysPrefix; vm_compute; [left | right; left].
  - vm_compute. reflexivity.
  - vm_compute. discriminate.
Qed.

Lemma C5_truncation_safety_witness :
  String.length K71 = lenKey /\
  ResolveKey two_store (K71 +:+ "extra-garbage") = ResolveKey two_store K71 /\
  ResolveKey_scan two_store (K71 +:+ "extra-garbage")
  = ResolveKey_scan two_store K71 /\
  (forall key, lenKey < String.length key ->
     ResolveKey two_store key
     = ResolveKey two_store (substring 0 lenKey key)).
Proof.
  split; [reflexivity|].
  apply (C5_truncation_safety two_store K71 "extra-garbage"). reflexivity.
Defined.

Lemma C10_no_format_validation_witness :
  ResolveKey empty_store EmptyString = Err ErrNoKeysFound /\
  ResolveKey one_store EmptyString = Ok "sha512-aaaa" /\
  ResolveKey one_store "sha" = Ok "sha512-aaaa" /\
  ResolveKey two_store EmptyString = Err (ErrAmbiguousKey EmptyString).
Proof.
  split; [|split; [|split]].
  - apply (C10_no_format_validation empty_store). vm_compute. reflexivity.
  - destruct (C10_no_format_validation one_store) as (_ & _ & _ & Hone & _).
    apply (Hone "sha512-aaaa" []). vm_compute. reflexivity.
  - destruct (C10_no_format_validation one_store) as (Hpre & _).
    apply (Hpre "sha" "sha512-aaaa" []); vm_compute; reflexivity.
  - apply (C10_no_format_validation two_store). vm_compute. lia.
Defined.

End ResolverExamples.

(** ** Opening a store *)

Section OpenStore.

Context `{D : Deps}.

(** What the closure of [NewStore] returns once the version is read. *)
Lemma NewStore_fn_version (d tx : Tx) (ok : bool) (version : Z) :
  dbIsPopulated d = Ok ok ->
  (if negb ok then Exec_all dbCreateStmts d else Ok d) = Ok tx ->
  getDBVersion tx = Ok version ->
  NewStore_fn d =
  if (version <? dbVersion)%Z then Err (ErrVersionLesser version dbVersion)
  else if (dbVersion <? version)%Z
       then Err (ErrVersionGreater version dbVersion)
       else Ok tx.
Proof.
  intros Hpop Hex Hver. unfold NewStore_fn, result_bind.
  rewrite Hpop, Hex, Hver. now rewrite Z.gtb_ltb.
Qed.

(** C6: let [version] be the schema version that [NewStore] reads in its
    transaction.  If it differs from [dbVersion], in either direction,
    [NewStore] returns an error and no store, and the database is left as
    it was; barring a failure of the environment the error is the
    lesser-than or the greater-than one.  [NewStore] returns a store only
    when the two versions are equal, and then does so unless the
    environment fails. *)
Theorem C6_schema_guard (f : Faults) (base : string)
    (blobs manifests : gmap string (list byte))
    (d tx : Tx) (ok : bool) (version : Z) :
  dbIsPopulated d = Ok ok ->
  (if negb ok then Exec_all dbCreateStmts d else Ok d) = Ok tx ->
  getDBVersion tx = Ok version ->
  (version <> dbVersion ->
     (exists e, NewStore f base blobs manifests d = Err e) /\
     snd (DB_Do f NewStore_fn d) = d) /\
  ((version < dbVersion)%Z -> f_NewDB f = None -> f_Begin f = None ->
     NewStore f base blobs manifests d
     = Err (ErrVersionLesser version dbVersion)) /\
  ((version > dbVersion)%Z -> f_NewDB f = None -> f_Begin f = None ->
     NewStore f base blobs manifests d
     = Err (ErrVersionGreater version dbVersion)) /\
  (forall ds, NewStore f base blobs manifests d = Ok ds ->
     version = dbVersion) /\
  (version = dbVersion ->
     f_NewDB f = None -> f_Begin f = None -> f_Commit f = None ->
     NewStore f base blobs manifests d
     = Ok (mkStore base blobs manifests tx)).
Proof.
  intros Hpop Hex Hver.
  pose proof (NewStore_fn_version d tx ok version Hpop Hex Hver) as Hfn.
  unfold NewStore, DB_Do. rewrite Hfn.
  destruct (Z.ltb_spec version dbVersion) as [Hlt|Hge];
    [|destruct (Z.ltb_spec dbVersion version) as [Hgt|Hle]].
  - repeat split.
    + destruct (f_NewDB f), (f_Begin f); eauto.
    + now destruct (f_Begin f).
    + intros _ -> ->. reflexivity.
    + lia.
    + intros ds. destruct (f_NewDB f), (f_Begin f); discriminate.
    + lia.
  - repeat split.
    + destruct (f_NewDB f), (f_Begin f); eauto.
    + now destruct (f_Begin f).
    + lia.
    + intros _ -> ->. reflexivity.
    + intros ds. destruct (f_NewDB f), (f_Begin f); discriminate.
    + lia.
  - repeat split.
    + lia.
    + lia.
    + lia.
    + lia.
    + lia.
    + intros _ -> -> ->. reflexivity.
Qed.

End OpenStore.

Lemma C6_schema_guard_witness :
  (exists e,
     NewStore (D:=Example.deps) no_faults "/var/lib/rkt" ∅ ∅ (Some 2%Z, [])
     = Err e) /\
  NewStore (D:=Example.deps) no_faults "/var/lib/rkt" ∅ ∅ (Some 2%Z, [])
  = Err (ErrVersionGreater 2 1) /\
  NewStore (D:=Example.deps) no_faults "/var/lib/rkt" ∅ ∅ (Some 0%Z, [])
  = Err (ErrVersionLesser 0 1) /\
  NewStore (D:=Example.deps) no_faults "/var/lib/rkt" ∅ ∅ (None, [])
  = Ok (mkStore (D:=Example.deps) "/var/lib/rkt" ∅ ∅ (Some 1%Z, [])).
Proof.
  split; [|split; [|split]].
  - apply (C6_schema_guard (D:=Example.deps) no_faults "/var/lib/rkt" ∅ ∅
             (Some 2%Z, []) (Some 2%Z, []) true 2);
      [reflexivity | reflexivity | reflexivity | vm_compute; discriminate].
  - apply (C6_schema_guard (D:=Example.deps) no_faults "/var/lib/rkt" ∅ ∅
             (Some 2%Z, []) (Some 2%Z, []) true 2);
      try reflexivity.
  - apply (C6_schema_guard (D:=Example.deps) no_faults "/var/lib/rkt" ∅ ∅
             (Some 0%Z, []) (Some 0%Z, []) true 0);
      try reflexivity.
  - apply (C6_schema_guard (D:=Example.deps) no_faults "/var/lib/rkt" ∅ ∅
             (None, []) (Some 1%Z, []) false 1);
      try reflexivity.
Defined.

(** ** The import pipeline *)

Section ImportPipeline.

Context `{D : Deps}.

(** What [Peek] sees on a fresh 512-byte buffered reader. *)
Lemma Peek_NewReaderSize (r : Reader) :
  Peek (NewReaderSize r 512) 512 =
  ((take 512 (rdata r),
    if (length (rdata r) <? 512)%nat then Some (rerr r) else None),
   {| bsize := 512; buf := take 512 (rdata r);
      rd := {| rdata := drop 512 (rdata r); rerr := rerr r |} |}).
Proof.
  unfold Peek, NewReaderSize. cbn [bsize buf rd app length].
  rewrite Nat.ltb_irrefl, Nat.sub_0_r, length_take.
  assert (E : Nat.min (Nat.min 512 (length (rdata r))) 512
              = Nat.min 512 (length (rdata r))) by lia.
  rewrite E. f_equal. f_equal.
  - apply take_ge. rewrite length_take. lia.
  - destruct (Nat.ltb_spec (Nat.min 512 (length (rdata r))) 512);
      destruct (Nat.ltb_spec (length (rdata r)) 512); try reflexivity; lia.
Qed.


Lemma bufio_Reader_peeked (r : Reader) :
  bufio_Reader
    {| bsize := 512; buf := take 512 (rdata r);
       rd := {| rdata := drop 512 (rdata r); rerr := rerr r |} |} = r.
Proof. unfold bufio_Reader. cbn. rewrite take_drop. now destruct r. Qed.


Lemma canonical_eq (r : Reader) :
  canonical r =
  match DetectFileType (take 512 (rdata r)) with
  | Ok typ =>
      match decompress r typ with
      | Ok dr => Some (rdata dr)
      | Err _ => None
      end
  | Err _ => None
  end.
Proof.
  unfold canonical. now rewrite Peek_NewReaderSize, bufio_Reader_peeked.
Qed.

Ltac unfold_WriteACI :=
  unfold WriteACI; rewrite Peek_NewReaderSize, bufio_Reader_peeked;
  cbv [bind wrap of_result of_go ret fail stores_Import stores_Write db_Do
       DB_Do diskv.Import diskv.Write tmpFile tmpDir result_bind Copy_Tee
       File_Close HashToKey Hash_Sum Hash_Write sha512_New].

Ltac simpl_store :=
  cbn [fcontent written digest app stores set_stores set_db base blob
       imageManifest db f_NewDB f_Begin f_Commit f_MkdirAll f_TempFile
       f_Copy f_Close f_Import f_Write no_faults] in *.

(** A successful import, read backwards. *)
Lemma WriteACI_Ok_inv (f : Faults) (now : Z) (r : Reader) (ds ds' : Store)
    (key : string) :
  WriteACI f now r ds = (Ret (Ok key), ds') ->
  exists typ dr im imj tx,
    DetectFileType (take 512 (rdata r)) = Ok typ /\
    decompress r typ = Ok dr /\
    rerr dr = io_EOF /\
    ManifestFromImage (rdata dr) = Ok im /\
    keyToString (sha512_Sum (rdata dr)) = Ret key /\
    json_Marshal im = Ok imj /\
    WriteACIInfo (db ds) (mkACIInfo key (Name im) now) = Ok tx /\
    ds' = mkStore (base ds) (<[key := rdata dr]> (blob ds))
                  (<[key := imj]> (imageManifest ds)) tx.
Proof.
  unfold_WriteACI. intros Heq.
  repeat (case_match; simplify_eq).
  all: simpl_store.
  all: eexists _, _, _, _, _; repeat split; eauto.
Qed.

(** A run in which nothing fails returns the key of the canonical
    contents and commits blob, manifest and index row. *)
Lemma WriteACI_Ok_intro (now : Z) (r dr : Reader) (ds : Store)
    (typ : FileType) (im : ImageManifest) (imj : list byte) (tx : Tx)
    (key : string) :
  512 <= length (rdata r) \/ rerr r = io_EOF ->
  DetectFileType (take 512 (rdata r)) = Ok typ ->
  decompress r typ = Ok dr ->
  rerr dr = io_EOF ->
  ManifestFromImage (rdata dr) = Ok im ->
  keyToString (sha512_Sum (rdata dr)) = Ret key ->
  json_Marshal im = Ok imj ->
  WriteACIInfo (db ds) (mkACIInfo key (Name im) now) = Ok tx ->
  WriteACI no_faults now r ds =
  (Ret (Ok key),
   mkStore (base ds) (<[key := rdata dr]> (blob ds))
           (<[key := imj]> (imageManifest ds)) tx).
Proof.
  intros Hpeek Hdet Hdec Heof Hman Hkey Hjson Hinfo.
  unfold_WriteACI. simpl_store.
  assert (Hp : match (if (length (rdata r) <? 512)%nat
                      then Some (rerr r) else None) with
               | Some io_EOF | None => true
               | _ => false
               end = true).
  { destruct Hpeek as [Hlen | ->].
    - destruct (Nat.ltb_spec (length (rdata r)) 512); [lia | reflexivity].
    - now destruct (length (rdata r) <? 512)%nat. }
  destruct (if (length (rdata r) <? 512)%nat then Some (rerr r) else None)
    as [[]|]; try discriminate Hp.
  all: rewrite Hdet, Hdec, Heof; simpl_store;
    rewrite Hman, Hkey, Hjson; simpl_store; rewrite Hinfo; reflexivity.
Qed.

Ltac nothing_stored :=
  left; split; [reflexivity|];
  split; [intros ?; discriminate|];
  intros ?; repeat split; discriminate.

Ltac blob_stored :=
  right; do 2 eexists;
  split; [reflexivity|]; split; [eassumption|];
  split; [reflexivity|]; split; [reflexivity|];
  split; [apply lookup_insert_eq|];
  first
    [ left; split; [reflexivity|]; split; [reflexivity|];
      eexists; first [left; reflexivity | right; reflexivity]
    | right; eexists; split; [reflexivity|];
      first
        [ left; split; [reflexivity|]; eexists; reflexivity
        | right; split; [reflexivity|]; eexists; eassumption ] ].

(** C7: the commits of [WriteACI] happen in the order blob import,
    manifest write, index row.  A run ends in one of four ways: nothing
    was stored and the error is not one of the three steps that follow
    the blob import; or the blob of the canonical contents is stored under
    the key and the error is that of marshalling or writing the manifest,
    manifest and index being untouched; or blob and manifest are stored
    and the error is that of the index; or all three are stored and the
    key is returned.  So a failure after the blob import returns an error
    and leaves the blob stored, and metadata is never written without the
    blob. *)
Theorem C7_commit_order (f : Faults) (now : Z) (r : Reader)
    (ds ds' : Store) (out : go (result string)) :
  WriteACI f now r ds = (out, ds') ->
  (ds' = ds /\
   (forall key, out <> Ret (Ok key)) /\
   (forall e,
      out <> Ret (Err (Errorf "error marshalling image manifest" e)) /\
      out <> Ret (Err (Errorf "error importing image manifest" e)) /\
      out <> Ret (Err (Errorf "error writing ACI Info" e))))
  \/
  exists key B,
    canonical r = Some B /\
    keyToString (sha512_Sum B) = Ret key /\
    base ds' = base ds /\
    blob ds' = <[key := B]> (blob ds) /\
    blob ds' !! key = Some B /\
    ((imageManifest ds' = imageManifest ds /\ db ds' = db ds /\
      exists e,
        out = Ret (Err (Errorf "error marshalling image manifest" e)) \/
        out = Ret (Err (Errorf "error importing image manifest" e)))
     \/
     exists imj,
       imageManifest ds' = <[key := imj]> (imageManifest ds) /\
       ((db ds' = db ds /\
         exists e, out = Ret (Err (Errorf "error writing ACI Info" e)))
        \/
        (out = Ret (Ok key) /\
         exists im,
           WriteACIInfo (db ds) (mkACIInfo key (Name im) now)
           = Ok (db ds')))).
Proof.
  rewrite canonical_eq. unfold_WriteACI. intros Heq.
  repeat (case_match; simplify_eq).
  all: simpl_store.
  all: first [ solve [nothing_stored] | solve [blob_stored] ].
Qed.

(** C2: two imports whose streams have byte-identical canonical
    (decompressed) contents [B] return the same key, whatever the file
    type detected for each stream; the key is the one [keyToString] gives
    for the SHA-512 sum of [B]. *)
Theorem C2_determinism (f1 f2 : Faults) (now1 now2 : Z) (r1 r2 : Reader)
    (ds1 ds2 ds1' ds2' : Store) (k1 k2 : string) (B : list byte) :
  canonical r1 = Some B ->
  canonical r2 = Some B ->
  WriteACI f1 now1 r1 ds1 = (Ret (Ok k1), ds1') ->
  WriteACI f2 now2 r2 ds2 = (Ret (Ok k2), ds2') ->
  k1 = k2 /\ keyToString (sha512_Sum B) = Ret k1.
Proof.
  rewrite !canonical_eq. intros Hc1 Hc2 Hw1 Hw2.
  apply WriteACI_Ok_inv in Hw1
    as (t1 & d1 & ? & ? & ? & Hd1 & Hz1 & _ & _ & Hk1 & _).
  apply WriteACI_Ok_inv in Hw2
    as (t2 & d2 & ? & ? & ? & Hd2 & Hz2 & _ & _ & Hk2 & _).
  rewrite Hd1, Hz1 in Hc1. rewrite Hd2, Hz2 in Hc2.
  injection Hc1 as E1. injection Hc2 as E2.
  rewrite E1 in Hk1. rewrite E2 in Hk2. split; congruence.
Qed.

(** C3 (amended): importing a gzip-typed stream whose decompressed bytes
    are [B] and whose manifest has the name [example-app], when no step
    fails, returns the key ["sha512-"] followed by the first 64 hex
    characters of the SHA-512 sum of [B]; afterwards reading the blob
    under that key gives exactly [B], and the manifest read under it has
    the name [example-app]. *)
Theorem C3_gzip_scenario (now : Z) (r dr : Reader) (ds : Store)
    (B : list byte) (im : ImageManifest) (imj : list byte) (tx : Tx) :
  512 <= length (rdata r) \/ rerr r = io_EOF ->
  DetectFileType (take 512 (rdata r)) = Ok TypeGzip ->
  decompress r TypeGzip = Ok dr ->
  rdata dr = B ->
  rerr dr = io_EOF ->
  length (sha512_Sum B) = 64 ->
  ManifestFromImage B = Ok im ->
  Name im = "example-app" ->
  json_Marshal im = Ok imj ->
  json_Unmarshal imj = Ok im ->
  WriteACIInfo (db ds)
    (mkACIInfo ("sha512-" +:+ substring 0 64 (hex (sha512_Sum B)))
               (Name im) now) = Ok tx ->
  exists ds',
    WriteACI no_faults now r ds
    = (Ret (Ok ("sha512-" +:+ substring 0 64 (hex (sha512_Sum B)))), ds') /\
    ReadStream ds' ("sha512-" +:+ substring 0 64 (hex (sha512_Sum B)))
    = Ok {| rdata := B; rerr := io_EOF |} /\
    exists im',
      GetImageManifest ds'
        ("sha512-" +:+ substring 0 64 (hex (sha512_Sum B))) = Ok im' /\
      Name im' = "example-app".
Proof.
  intros Hpeek Hdet Hdec HB Heof Hlen Hman Hname Hjson Hun Hinfo.
  subst B.
  pose proof (keyToString_ok _ Hlen) as Hkey.
  eexists. split; [|split].
  - eapply (WriteACI_Ok_intro now r dr ds TypeGzip im imj tx); eauto.
  - unfold ReadStream, diskv.ReadStream. cbn [stores blob].
    now rewrite lookup_insert_eq.
  - exists im. split; [|exact Hname].
    unfold GetImageManifest, diskv.Read. cbn [stores imageManifest].
    now rewrite lookup_insert_eq, Hun.
Qed.

(** C9: reaching the end of the stream while peeking is not an error.  On
    a stream shorter than 512 bytes that ends cleanly, [Peek] hands over
    the partial bytes, detection runs on them (its error, or that of
    [decompress], is what [WriteACI] returns; no header error is), and
    the import succeeds when no later step fails.  Any other error met
    while peeking makes [WriteACI] return the header error and leaves the
    store as it was.  The buffered reader still delivers the whole
    stream, and a successful import stores and hashes the decompression
    of the whole stream. *)
Theorem C9_peek_eof (f : Faults) (now : Z) (r : Reader) (ds : Store) :
  (length (rdata r) < 512 -> rerr r = io_EOF ->
     fst (Peek (NewReaderSize r 512) 512) = (rdata r, Some io_EOF) /\
     (forall e, DetectFileType (rdata r) = Err e ->
        WriteACI f now r ds
        = (Ret (Err (Errorf "error detecting image type" e)), ds)) /\
     (forall typ e, DetectFileType (rdata r) = Ok typ ->
        decompress r typ = Err e ->
        WriteACI f now r ds
        = (Ret (Err (Errorf "error decompressing image" e)), ds)) /\
     (forall e, fst (WriteACI f now r ds)
                <> Ret (Err (Errorf "error reading image header" e))) /\
     (forall typ dr im imj tx key,
        DetectFileType (rdata r) = Ok typ ->
        decompress r typ = Ok dr ->
        rerr dr = io_EOF ->
        ManifestFromImage (rdata dr) = Ok im ->
        keyToString (sha512_Sum (rdata dr)) = Ret key ->
        json_Marshal im = Ok imj ->
        WriteACIInfo (db ds) (mkACIInfo key (Name im) now) = Ok tx ->
        fst (WriteACI no_faults now r ds) = Ret (Ok key))) /\
  (length (rdata r) < 512 -> rerr r <> io_EOF ->
     WriteACI f now r ds
     = (Ret (Err (Errorf "error reading image header" (rerr r))), ds)) /\
  bufio_Reader (snd (Peek (NewReaderSize r 512) 512)) = r /\
  (forall key ds', WriteACI f now r ds = (Ret (Ok key), ds') ->
     exists typ dr,
       DetectFileType (take 512 (rdata r)) = Ok typ /\
       decompress r typ = Ok dr /\
       keyToString (sha512_Sum (rdata dr)) = Ret key /\
       blob ds' !! key = Some (rdata dr)).
Proof.
  split; [|split; [|split]].
  - intros Hshort Heof.
    assert (Hlt : (length (rdata r) <? 512)%nat = true)
      by (apply Nat.ltb_lt; exact Hshort).
    assert (Htake : take 512 (rdata r) = rdata r)
      by (apply take_ge; lia).
    split; [|split; [|split; [|split]]].
    + rewrite Peek_NewReaderSize. cbn [fst]. now rewrite Hlt, Htake, Heof.
    + intros e He. unfold_WriteACI. now rewrite Hlt, Heof, Htake, He.
    + intros typ e Ht He. unfold_WriteACI.
      now rewrite Hlt, Heof, Htake, Ht, He.
    + intros e. unfold_WriteACI. rewrite Hlt, Heof.
      repeat (case_match; simplify_eq); cbn [fst]; discriminate.
    + intros typ dr im imj tx key Hdet Hdec Hz Hman Hkey Hj Hinfo.
      rewrite <- Htake in Hdet.
      now rewrite (WriteACI_Ok_intro now r dr ds typ im imj tx key)
        by auto.
  - intros Hshort Herr.
    assert (Hlt : (length (rdata r) <? 512)%nat = true)
      by (apply Nat.ltb_lt; exact Hshort).
    unfold_WriteACI. rewrite Hlt.
    destruct (rerr r); [congruence | reflexivity ..].
  - rewrite Peek_NewReaderSize. apply bufio_Reader_peeked.
  - intros key ds' Hw.
    apply WriteACI_Ok_inv in Hw
      as (typ & dr & im & imj & tx & Hd & Hz & _ & _ & Hk & _ & _ & ->).
    exists typ, dr. repeat split; try assumption.
    apply lookup_insert_eq.
Qed.

End ImportPipeline.

Section ImportExamples.

Import Example.

Lemma C2_determinism_witness :
  canonical gz = Some B /\
  canonical tar = Some B /\
  fst (WriteACI no_faults 0 gz empty_store) = Ret (Ok K_B) /\
  fst (WriteACI no_faults 7 tar two_store) = Ret (Ok K_B) /\
  K_B = K_B /\
  keyToString (sha512_Sum B) = Ret K_B.
Proof.
  split; [reflexivity|]. split; [reflexivity|].
  split; [vm_compute; reflexivity|]. split; [vm_compute; reflexivity|].
  apply (C2_determinism no_faults no_faults 0 7 gz tar
           empty_store two_store
           (snd (WriteACI no_faults 0 gz empty_store))
           (snd (WriteACI no_faults 7 tar two_store)) K_B K_B B);
    vm_compute; reflexivity.
Defined.

Lemma C3_gzip_scenario_witness :
  exists ds',
    WriteACI no_faults 0 gz empty_store
    = (Ret (Ok ("sha512-" +:+ substring 0 64 (hex (sha512_Sum B)))), ds') /\
    ReadStream ds' ("sha512-" +:+ substring 0 64 (hex (sha512_Sum B)))
    = Ok {| rdata := B; rerr := io_EOF |} /\
    exists im',
      GetImageManifest ds'
        ("sha512-" +:+ substring 0 64 (hex (sha512_Sum B))) = Ok im' /\
      Name im' = "example-app".
Proof.
  apply (C3_gzip_scenario 0 gz tar empty_store B "example-app"
           (list_byte_of_string "example-app")
           (Some 1%Z, [mkACIInfo K_B "example-app" 0]));
    try (vm_compute; reflexivity).
  right. reflexivity.
Defined.

(** C3 as stated fails: the key returned for the gzip-typed stream has the
    first 64 hex characters of the sum after the prefix, not the first
    32. *)
Lemma C3_counterexample :
  DetectFileType (take 512 (rdata gz)) = Ok TypeGzip /\
  canonical gz = Some B /\
  ManifestFromImage B = Ok "example-app" /\
  fst (WriteACI no_faults 0 gz empty_store)
  = Ret (Ok ("sha512-" +:+ substring 0 64 (hex (sha512_Sum B)))) /\
  fst (WriteACI no_faults 0 gz empty_store)
  <> Ret (Ok ("sha512-" +:+ substring 0 32 (hex (sha512_Sum B)))).
Proof.
  split; [reflexivity|]. split; [reflexivity|]. split; [reflexivity|].
  split; vm_compute; [reflexivity | discriminate].
Qed.

Lemma C7_commit_order_witness :
  WriteACI write_fails 0 gz empty_store
  = (Ret (Err (Errorf "error importing image manifest"
                 (ExtError "disk full"))),
     set_stores empty_store blobType {[ K_B := B ]}) /\
  exists key content,
    canonical gz = Some content /\
    keyToString (sha512_Sum content) = Ret key /\
    blob (set_stores empty_store blobType {[ K_B := B ]}) !! key
    = Some content.
Proof.
  assert (Hrun : WriteACI write_fails 0 gz empty_store
                 = (Ret (Err (Errorf "error importing image manifest"
                                (ExtError "disk full"))),
                    set_stores empty_store blobType {[ K_B := B ]}))
    by (vm_compute; reflexivity).
  split; [exact Hrun|].
  destruct (C7_commit_order write_fails 0 gz empty_store _ _ Hrun)
    as [[_ [_ Hno]] | (key & B' & Hc & Hk & _ & _ & Hb & _)].
  - exfalso. destruct (Hno (ExtError "disk full")) as (_ & Hn & _).
    apply Hn. reflexivity.
  - exists key, B'. exact (conj Hc (conj Hk Hb)).
Defined.

Lemma C9_peek_eof_witness :
  fst (Peek (NewReaderSize tar 512) 512) = (rdata tar, Some io_EOF) /\
  fst (WriteACI no_faults 0 tar empty_store) = Ret (Ok K_B) /\
  WriteACI no_faults 0 broken empty_store
  = (Ret (Err (Errorf "error reading image header"
                 (ExtError "connection reset"))), empty_store).
Proof.
  split; [|split].
  - apply (C9_peek_eof no_faults 0 tar empty_store);
      [apply Nat.ltb_lt; reflexivity | reflexivity].
  - destruct (C9_peek_eof no_faults 0 tar empty_store) as [Hshort _].
    destruct Hshort as (_ & _ & _ & _ & Hok);
      [apply Nat.ltb_lt; reflexivity | reflexivity |].
    apply (Hok TypeTar tar "example-app" (list_byte_of_string "example-app")
             (Some 1%Z, [mkACIInfo K_B "example-app" 0]));
      vm_compute; reflexivity.
  - apply (C9_peek_eof no_faults 0 broken empty_store);
      [apply Nat.ltb_lt; reflexivity | discriminate].
Defined.

End ImportExamples.

(** * Further properties of the key codec and of the resolver *)

Section PrefixFacts.

Lemma has_prefix_refl (k : string) : has_prefix k k.
Proof.
  unfold has_prefix. induction k as [|c k IH]; [reflexivity|].
  cbn. now destruct (ascii_dec c c).
Qed.

Lemma has_prefix_trans (a b c : string) :
  has_prefix a b -> has_prefix b c -> has_prefix a c.
Proof.
  unfold has_prefix. revert b c.
  induction a as [|x a IH]; intros b c Hab Hbc.
  - now destruct c.
  - destruct b as [|y b]; [discriminate Hab|].
    destruct c as [|z c]; [discriminate Hbc|].
    cbn in *. destruct (ascii_dec x y) as [->|]; [|discriminate].
    destruct (ascii_dec y z) as [->|]; [|discriminate]. eauto.
Qed.

Lemma has_prefix_length (a b : string) :
  has_prefix a b -> String.length a <= String.length b.
Proof.
  unfold has_prefix. revert b. induction a as [|x a IH]; intros b Hab.
  - cbn. lia.
  - destruct b as [|y b]; [discriminate Hab|]. cbn in *.
    destruct (ascii_dec x y); [|discriminate]. apply IH in Hab. lia.
Qed.

Lemma has_prefix_same_length (a b : string) :
  has_prefix a b -> String.length a = String.length b -> a = b.
Proof.
  unfold has_prefix. revert b. induction a as [|x a IH]; intros b Hab Hlen.
  - now destruct b.
  - destruct b as [|y b]; [discriminate Hab|]. cbn in *.
    destruct (ascii_dec x y) as [->|]; [|discriminate].
    f_equal. apply IH; [exact Hab | lia].
Qed.

Lemma has_prefix_substring (k : string) (n : nat) :
  has_prefix (substring 0 n k) k.
Proof.
  unfold has_prefix. revert n. induction k as [|c k IH]; intros [|n];
    try reflexivity.
  cbn. destruct (ascii_dec c c); [apply IH | congruence].
Qed.

Lemma has_prefix_truncateKey `{D : Deps} (key : string) :
  has_prefix (truncateKey key) key.
Proof.
  unfold truncateKey. destruct (lenKey <? String.length key)%nat.
  - apply has_prefix_substring.
  - apply has_prefix_refl.
Qed.

End PrefixFacts.

Section HexInjective.

Lemma hexdigit_inj (n m : N) :
  (n < 16)%N -> (m < 16)%N -> hexdigit n = hexdigit m -> n = m.
Proof.
  intros Hn Hm.
  rewrite <- (N2Nat.id n), <- (N2Nat.id m).
  assert (Ha : N.to_nat n < 16) by lia.
  assert (Hb : N.to_nat m < 16) by lia.
  generalize dependent (N.to_nat m). generalize dependent (N.to_nat n).
  clear. intros a Ha b Hb E.
  do 16 (destruct a as [|a];
         [ do 16 (destruct b as [|b];
                  [ first [reflexivity | exfalso; vm_compute in E; discriminate E]
                  | ]);
           exfalso; lia
         | ]).
  exfalso; lia.
Qed.

Lemma to_N_inj (b1 b2 : byte) : Byte.to_N b1 = Byte.to_N b2 -> b1 = b2.
Proof.
  intros E. pose proof (Byte.of_to_N b1) as H1.
  rewrite E, Byte.of_to_N in H1. congruence.
Qed.

Lemma hex_inj (k1 k2 : list byte) : hex k1 = hex k2 -> k1 = k2.
Proof.
  revert k2. induction k1 as [|b1 k1 IH]; intros [|b2 k2] E;
    try reflexivity; try discriminate E.
  cbn in E. injection E as Ehi Elo Erest.
  pose proof (Byte.to_N_bounded b1) as B1.
  pose proof (Byte.to_N_bounded b2) as B2.
  apply hexdigit_inj in Ehi;
    [|apply N.Div0.div_lt_upper_bound; lia
     |apply N.Div0.div_lt_upper_bound; lia].
  apply hexdigit_inj in Elo; [|apply N.mod_lt; lia|apply N.mod_lt; lia].
  f_equal; [|now apply IH].
  apply to_N_inj.
  rewrite (N.div_mod (Byte.to_N b1) 16), (N.div_mod (Byte.to_N b2) 16) by lia.
  now rewrite Ehi, Elo.
Qed.

End HexInjective.

(** X1: the key of a 64-byte sum is determined by, and determines, the
    first 32 bytes of the sum: two sums get the same key exactly when they
    agree on their first half. *)
Theorem X1_key_first_half (d1 d2 : list byte) :
  length d1 = lenHash -> length d2 = lenHash ->
  (keyToString d1 = keyToString d2 <-> take 32 d1 = take 32 d2).
Proof.
  intros H1 H2. rewrite !keyToString_ok by assumption.
  change lenHashKey with (2 * 32). rewrite !hex_take. split.
  - intros E. injection E as E. now apply hex_inj in E.
  - now intros ->.
Qed.

Lemma X1_key_first_half_witness :
  keyToString (repeat x01%byte 32 ++ repeat x02%byte 32)
  = keyToString (repeat x01%byte 32 ++ repeat x03%byte 32)
  <-> take 32 (repeat x01%byte 32 ++ repeat x02%byte 32)
      = take 32 (repeat x01%byte 32 ++ repeat x03%byte 32).
Proof.
  apply (X1_key_first_half (repeat x01%byte 32 ++ repeat x02%byte 32)
           (repeat x01%byte 32 ++ repeat x03%byte 32)); reflexivity.
Defined.

Section ResolverMore.

Context `{D : Deps}.

Lemma ResolveKey_Ok_inv (ds : Store) (key k : string) :
  ResolveKey ds key = Ok k ->
  key_matches (blob ds) (truncateKey key) k /\
  forall k', key_matches (blob ds) (truncateKey key) k' -> k' = k.
Proof.
  rewrite ResolveKey_cases.
  pose proof (fun k => elem_of_KeysPrefix (blob ds) (truncateKey key) k) as Hin.
  destruct (diskv.KeysPrefix (blob ds) (truncateKey key)) as [|a [|b l]];
    try discriminate.
  intros E. injection E as <-. split.
  - apply Hin. left.
  - intros k' Hk'. apply Hin in Hk'. now apply list_elem_of_singleton in Hk'.
Qed.

(** X2: what each outcome of [ResolveKey] means.  A returned key is stored
    in the blob namespace, has the truncated input as a prefix and is the
    only such key; [no keys found] means that no stored key has that prefix;
    the only other error is the ambiguous-key one, and it means two distinct
    stored keys have the prefix. *)
Theorem X2_ResolveKey_sound (ds : Store) (key : string) :
  (forall k, ResolveKey ds key = Ok k ->
     key_matches (blob ds) (truncateKey key) k /\
     forall k', key_matches (blob ds) (truncateKey key) k' -> k' = k) /\
  (ResolveKey ds key = Err ErrNoKeysFound ->
     forall k, ~ key_matches (blob ds) (truncateKey key) k) /\
  (forall e, ResolveKey ds key = Err e -> e <> ErrNoKeysFound ->
     e = ErrAmbiguousKey (truncateKey key) /\
     exists k1 k2, k1 <> k2 /\
       key_matches (blob ds) (truncateKey key) k1 /\
       key_matches (blob ds) (truncateKey key) k2).
Proof.
  rewrite ResolveKey_cases.
  pose proof (NoDup_KeysPrefix (blob ds) (truncateKey key)) as Hnd.
  pose proof (fun k => elem_of_KeysPrefix (blob ds) (truncateKey key) k) as Hin.
  destruct (diskv.KeysPrefix (blob ds) (truncateKey key)) as [|a [|b l]].
  - split; [discriminate|]. split; [|intros e E; injection E as <-; congruence].
    intros _ k Hk. apply Hin in Hk. inversion Hk.
  - split; [|split; discriminate].
    intros k E. injection E as <-. split.
    + apply Hin. left.
    + intros k' Hk'. apply Hin in Hk'. now apply list_elem_of_singleton in Hk'.
  - split; [discriminate|]. split; [discriminate|].
    intros e E _. injection E as <-. split; [reflexivity|].
    exists a, b. split; [|split].
    + apply NoDup_cons in Hnd as [Hnotin _]. intros ->. apply Hnotin. left.
    + apply Hin. left.
    + apply Hin. right. left.
Qed.

(** X3: the loop of [ResolveKey] receives at most two keys, whatever the
    number of matching keys; it closes [cancel] exactly when it has received
    two; when it does not, it has drained the channel; and the keys it
    received and left are together the matching keys. *)
Theorem X3_scan_bound (ds : Store) (key : string) :
  keyCount (ResolveKey_scan ds key) <= 2 /\
  (cancelled (ResolveKey_scan ds key) = true
   <-> keyCount (ResolveKey_scan ds key) = 2) /\
  (cancelled (ResolveKey_scan ds key) = false ->
   unreceived (ResolveKey_scan ds key) = []) /\
  length (diskv.KeysPrefix (blob ds) (truncateKey key))
  = keyCount (ResolveKey_scan ds key)
    + length (unreceived (ResolveKey_scan ds key)).
Proof.
  unfold ResolveKey_scan. rewrite range_keys_cases. cbn [stores].
  destruct (diskv.KeysPrefix (blob ds) (truncateKey key)) as [|a [|b l]];
    cbn; repeat split; try lia; try discriminate; reflexivity.
Qed.

(** X4: a key that [ResolveKey] returns can be read: [ReadStream] on it
    succeeds and delivers the stored blob. *)
Theorem X4_resolved_key_reads (ds : Store) (key k : string) :
  ResolveKey ds key = Ok k ->
  exists v, blob ds !! k = Some v /\
            ReadStream ds k = Ok {| rdata := v; rerr := io_EOF |}.
Proof.
  intros E. apply ResolveKey_Ok_inv in E as [[[v Hv] _] _].
  exists v. split; [exact Hv|].
  unfold ReadStream, diskv.ReadStream. cbn [stores]. now rewrite Hv.
Qed.

End ResolverMore.

Section ResolverComposition.

Context `{D : Deps}.

(** X5: a longer prefix of the resolved key resolves to the same key: if
    [p] resolves to [k], then so does every [p'] of at most [lenKey]
    characters that extends [p] and is a prefix of [k]. *)
Theorem X5_longer_prefix (ds : Store) (p p' k : string) :
  ResolveKey ds p = Ok k ->
  has_prefix p p' -> has_prefix p' k -> String.length p' <= lenKey ->
  ResolveKey ds p' = Ok k.
Proof.
  intros E Hpp' Hp'k Hlen.
  apply ResolveKey_Ok_inv in E as [[Hst _] Huniq].
  assert (Hp : truncateKey p = p).
  { apply truncateKey_short. apply has_prefix_length in Hpp'. lia. }
  rewrite Hp in Huniq.
  rewrite ResolveKey_cases, (truncateKey_short p') by assumption.
  rewrite (KeysPrefix_one _ _ k); [reflexivity | now split |].
  intros k' [Hst' Hpre']. apply Huniq. split; [exact Hst'|].
  now apply (has_prefix_trans p p' k').
Qed.

(** X6: an exact match has no priority.  When a stored key is a proper
    prefix of another stored key, resolving it gives the ambiguous-key
    error, not the key. *)
Theorem X6_no_exact_match_priority (ds : Store) (k1 k2 : string) :
  is_Some (blob ds !! k1) -> is_Some (blob ds !! k2) ->
  k1 <> k2 -> has_prefix k1 k2 ->
  ResolveKey ds k1 = Err (ErrAmbiguousKey (truncateKey k1)).
Proof.
  intros H1 H2 Hne Hpre.
  assert (M1 : key_matches (blob ds) (truncateKey k1) k1)
    by (split; [exact H1 | apply has_prefix_truncateKey]).
  assert (M2 : key_matches (blob ds) (truncateKey k1) k2).
  { split; [exact H2|].
    apply (has_prefix_trans _ k1); [apply has_prefix_truncateKey | exact Hpre]. }
  destruct (KeysPrefix_many _ _ _ _ Hne M1 M2) as (a & b & l & E).
  now rewrite ResolveKey_cases, E.
Qed.

Lemma full_keys_unique (m : gmap string (list byte)) (p k k' : string) :
  full_keys m -> String.length p = lenKey ->
  key_matches m p k -> key_matches m p k' -> k' = k.
Proof.
  intros Hfull Hp [Hk Hpk] [Hk' Hpk'].
  apply Hfull in Hk. apply Hfull in Hk'.
  rewrite <- (has_prefix_same_length p k), <- (has_prefix_same_length p k');
    auto; lia.
Qed.

Lemma ResolveKey_full_key (ds : Store) (k suffix : string) :
  full_keys (blob ds) -> is_Some (blob ds !! k) ->
  ResolveKey ds (k +:+ suffix) = Ok k.
Proof.
  intros Hfull Hk. pose proof (Hfull k Hk) as Hlen.
  assert (Hm : key_matches (blob ds) k k)
    by (split; [exact Hk | apply has_prefix_refl]).
  rewrite ResolveKey_cases, truncateKey_append by exact Hlen.
  rewrite (KeysPrefix_one _ _ k); [reflexivity | exact Hm |].
  intros k' Hk'. now apply (full_keys_unique (blob ds) k k k').
Qed.

(** X7: in a store whose blob keys all have the length of a full key, every
    stored key resolves to itself, with or without trailing characters, and
    no input of at least [lenKey] characters is ambiguous. *)
Theorem X7_full_keys_resolve (ds : Store) :
  full_keys (blob ds) ->
  (forall k suffix, is_Some (blob ds !! k) ->
     ResolveKey ds (k +:+ suffix) = Ok k) /\
  (forall key, lenKey <= String.length key ->
     ResolveKey ds key = Err ErrNoKeysFound \/
     exists k, ResolveKey ds key = Ok k).
Proof.
  intros Hfull. split.
  - intros k suffix Hk. now apply ResolveKey_full_key.
  - intros key Hlen. rewrite ResolveKey_cases.
    assert (Hp : String.length (truncateKey key) = lenKey).
    { unfold truncateKey.
      destruct (Nat.ltb_spec lenKey (String.length key)).
      - apply substring_length. lia.
      - lia. }
    pose proof (NoDup_KeysPrefix (blob ds) (truncateKey key)) as Hnd.
    pose proof (fun k => elem_of_KeysPrefix (blob ds) (truncateKey key) k)
      as Hin.
    destruct (diskv.KeysPrefix (blob ds) (truncateKey key)) as [|a [|b l]];
      [now left | right; eauto |].
    exfalso. apply NoDup_cons in Hnd as [Hnotin _]. apply Hnotin.
    rewrite (full_keys_unique (blob ds) (truncateKey key) b a Hfull Hp);
      [left | |]; apply Hin; [right; left | left].
Qed.

End ResolverComposition.

Section ResolverMoreExamples.

Import Example.

Lemma X2_ResolveKey_sound_witness :
  key_matches (blob two_store) (truncateKey "sha512-aaaa") "sha512-aaaa" /\
  (forall k, ~ key_matches (blob two_store) (truncateKey "sha512-zz") k) /\
  ErrAmbiguousKey "sha512-aa" = ErrAmbiguousKey (truncateKey "sha512-aa").
Proof.
  split; [|split].
  - apply (X2_ResolveKey_sound two_store "sha512-aaaa").
    vm_compute. reflexivity.
  - apply (X2_ResolveKey_sound two_store "sha512-zz").
    vm_compute. reflexivity.
  - apply (X2_ResolveKey_sound two_store "sha512-aa");
      [vm_compute; reflexivity | discriminate].
Defined.

Lemma X3_scan_bound_witness :
  keyCount (ResolveKey_scan two_store "sha512-aa") <= 2 /\
  cancelled (ResolveKey_scan two_store "sha512-aa") = true /\
  unreceived (ResolveKey_scan two_store "sha512-aaaa") = [].
Proof.
  split; [|split].
  - apply (X3_scan_bound two_store "sha512-aa").
  - apply (X3_scan_bound two_store "sha512-aa"). vm_compute. reflexivity.
  - apply (X3_scan_bound two_store "sha512-aaaa"). vm_compute. reflexivity.
Defined.

Lemma X4_resolved_key_reads_witness :
  exists v, blob two_store !! "sha512-aabb" = Some v /\
            ReadStream two_store "sha512-aabb"
            = Ok {| rdata := v; rerr := io_EOF |}.
Proof.
  apply (X4_resolved_key_reads two_store "sha512-aab" "sha512-aabb").
  vm_compute. reflexivity.
Defined.

Lemma X5_longer_prefix_witness :
  ResolveKey two_store "sha512-aabb" = Ok "sha512-aabb".
Proof.
  apply (X5_longer_prefix two_store "sha512-aab" "sha512-aabb" "sha512-aabb");
    [vm_compute; reflexivity | reflexivity | reflexivity
    | apply Nat.leb_le; reflexivity].
Defined.

Lemma X6_no_exact_match_priority_witness :
  ResolveKey long_ab_store K71 = Err (ErrAmbiguousKey (truncateKey K71)).
Proof.
  apply (X6_no_exact_match_priority long_ab_store K71 (K71 +:+ "a"));
    [vm_compute; eauto | vm_compute; eauto | discriminate
    | vm_compute; reflexivity].
Defined.

Lemma X7_full_keys_resolve_witness :
  ResolveKey k71_store (K71 +:+ "extra-garbage") = Ok K71.
Proof.
  apply (X7_full_keys_resolve k71_store).
  - intros k [v Hk]. unfold k71_store, WriteStream in Hk. cbn in Hk.
    apply lookup_insert_Some in Hk as [[<- _]|[_ Hk]]; [reflexivity|].
    rewrite lookup_empty in Hk. discriminate.
  - vm_compute. eauto.
Defined.

End ResolverMoreExamples.

(** * Further properties of the store operations *)

Section StoreMore.

Context `{D : Deps}.

(** X8: [WriteStream] and [ReadStream] address the blob namespace only: what
    [WriteStream] stored under a key is what [ReadStream] delivers for it,
    reading other keys is unaffected, and the manifests, the database and
    the base directory are untouched. *)
Theorem X8_WriteStream_ReadStream (f : Faults) (ds ds' : Store)
    (key : string) (r : Reader) :
  WriteStream f ds key r = (None, ds') ->
  ReadStream ds' key = Ok {| rdata := rdata r; rerr := io_EOF |} /\
  (forall k, k <> key -> ReadStream ds' k = ReadStream ds k) /\
  (forall k, GetImageManifest ds' k = GetImageManifest ds k) /\
  db ds' = db ds /\ base ds' = base ds.
Proof.
  unfold WriteStream, diskv.WriteStream, diskv.Write. cbn [stores].
  intros E.
  destruct (rerr r); try (injection E as _ <-; discriminate).
  all: try discriminate E.
  destruct (f_Write f); [discriminate E|]. injection E as <-.
  unfold ReadStream, GetImageManifest, diskv.ReadStream. cbn.
  repeat split.
  - now rewrite lookup_insert_eq.
  - intros k Hk. now rewrite lookup_insert_ne by congruence.
Qed.

(** What [keyToString] returned, read backwards. *)
Lemma keyToString_Ret_inv (d : list byte) (k : string) :
  keyToString d = Ret k ->
  length d = lenHash /\ k = hashPrefix +:+ substring 0 lenHashKey (hex d).
Proof.
  intros E. destruct (Nat.eq_dec (length d) lenHash) as [Hl|Hl].
  - split; [exact Hl|]. rewrite (keyToString_ok d Hl) in E. congruence.
  - unfold keyToString in E. apply Nat.eqb_neq in Hl. rewrite Hl in E.
    discriminate E.
Qed.

Lemma keyToString_Panic_inv (d : list byte) (msg : string) :
  keyToString d = Panic msg -> length d <> lenHash.
Proof.
  intros E Hl. rewrite (keyToString_ok d Hl) in E. discriminate E.
Qed.

Lemma key_length (d : list byte) (k : string) :
  keyToString d = Ret k -> String.length k = lenKey.
Proof.
  intros E. apply keyToString_Ret_inv in E as [Hl ->].
  rewrite length_append, substring_length; [reflexivity|].
  rewrite hex_length, Hl. apply Nat.leb_le. reflexivity.
Qed.

Ltac exec_WriteACI :=
  unfold WriteACI; rewrite Peek_NewReaderSize, bufio_Reader_peeked;
  cbv [bind wrap of_result of_go ret fail stores_Import stores_Write db_Do
       DB_Do diskv.Import diskv.Write tmpFile tmpDir result_bind Copy_Tee
       File_Close HashToKey Hash_Sum Hash_Write sha512_New].

Ltac simpl_run :=
  cbn [fcontent written digest app stores set_stores set_db base blob
       imageManifest db] in *.

Ltac shape_leaf :=
  split;
  [ first
      [ left; reflexivity
      | right; do 2 eexists;
        split; [reflexivity|]; split; [eassumption|];
        split; [reflexivity|]; split; [reflexivity|];
        first [left; reflexivity | right; eexists; reflexivity] ]
  | split;
    [ intros ? E; first [discriminate E | injection E as <-; eauto]
    | intros ? E;
      first
        [ discriminate E
        | injection E as <-;
          (split; [reflexivity|]); eexists; (split; [reflexivity|]);
          eapply keyToString_Panic_inv; eassumption ] ] ].

(** Every run of [WriteACI], by what it leaves in the store. *)
Lemma WriteACI_shape (f : Faults) (now : Z) (r : Reader) (ds ds' : Store)
    (out : go (result string)) :
  WriteACI f now r ds = (out, ds') ->
  (ds' = ds \/
   exists key B,
     canonical r = Some B /\
     keyToString (sha512_Sum B) = Ret key /\
     base ds' = base ds /\
     blob ds' = <[key := B]> (blob ds) /\
     (imageManifest ds' = imageManifest ds \/
      exists imj, imageManifest ds' = <[key := imj]> (imageManifest ds))) /\
  (forall e, out = Ret (Err e) -> exists ctx cause, e = Errorf ctx cause) /\
  (forall msg, out = Panic msg ->
     ds' = ds /\
     exists B, canonical r = Some B /\ length (sha512_Sum B) <> lenHash).
Proof.
  rewrite canonical_eq. exec_WriteACI. intros Heq.
  repeat (case_match; simplify_eq).
  all: simpl_run.
  all: solve [shape_leaf].
Qed.

End StoreMore.

Section ImportMore.

Context `{D : Deps}.

Lemma append_empty_r (s : string) : s +:+ EmptyString = s.
Proof.
  induction s as [|c s IH]; [reflexivity|].
  change (String c (s +:+ EmptyString) = String c s). now rewrite IH.
Qed.

Lemma has_prefix_append (a b : string) : has_prefix a (a +:+ b).
Proof.
  unfold has_prefix. induction a as [|c a IH]; [now destruct b|].
  change (String.prefix (String c a) (String c (a +:+ b)) = true).
  cbn. now destruct (ascii_dec c c).
Qed.

Lemma full_keys_insert (m : gmap string (list byte)) (k : string)
    (v : list byte) :
  full_keys m -> String.length k = lenKey -> full_keys (<[k := v]> m).
Proof.
  intros Hfull Hk k' Hk'. destruct (decide (k = k')) as [<-|Hne];
    [exact Hk|].
  rewrite lookup_insert_ne in Hk' by exact Hne. now apply Hfull.
Qed.

(** X9: after any successful import, whatever the file type, reading the
    blob under the returned key delivers exactly the canonical bytes
    (whatever was stored under that key before), reading the manifest under
    it decodes what was marshalled from the manifest of those bytes, and the
    database is the one [WriteACIInfo] produced for the row with that key,
    the manifest's name and the import time. *)
Theorem X9_import_round_trip (f : Faults) (now : Z) (r : Reader)
    (ds ds' : Store) (key : string) :
  WriteACI f now r ds = (Ret (Ok key), ds') ->
  exists B im imj,
    canonical r = Some B /\
    ManifestFromImage B = Ok im /\
    json_Marshal im = Ok imj /\
    ReadStream ds' key = Ok {| rdata := B; rerr := io_EOF |} /\
    GetImageManifest ds' key =
      match json_Unmarshal imj with
      | Ok im' => Ok im'
      | Err err => Err (Errorf "error unmarshalling image manifest" err)
      end /\
    WriteACIInfo (db ds) (mkACIInfo key (Name im) now) = Ok (db ds').
Proof.
  intros Hw. rewrite canonical_eq.
  apply WriteACI_Ok_inv in Hw
    as (typ & dr & im & imj & tx & Hd & Hz & _ & Hm & _ & Hj & Hi & ->).
  exists (rdata dr), im, imj. rewrite Hd, Hz.
  unfold ReadStream, GetImageManifest, diskv.ReadStream, diskv.Read.
  cbn [stores blob imageManifest db]. rewrite !lookup_insert_eq.
  repeat split; assumption.
Qed.

(** X10: an import, successful or not, leaves the base directory as it was,
    removes no key from either namespace, and changes nothing under any key
    other than the key of the stream's canonical contents. *)
Theorem X10_import_frame (f : Faults) (now : Z) (r : Reader)
    (ds ds' : Store) (out : go (result string)) :
  WriteACI f now r ds = (out, ds') ->
  base ds' = base ds /\
  (forall k, is_Some (blob ds !! k) -> is_Some (blob ds' !! k)) /\
  (forall k, is_Some (imageManifest ds !! k) ->
             is_Some (imageManifest ds' !! k)) /\
  (forall k,
     (forall B, canonical r = Some B -> keyToString (sha512_Sum B) <> Ret k) ->
     blob ds' !! k = blob ds !! k /\
     imageManifest ds' !! k = imageManifest ds !! k).
Proof.
  intros Hw. apply WriteACI_shape in Hw as [Hshape _].
  destruct Hshape as [-> | (key & B & Hc & Hk & Hb & Hblob & Hman)].
  { repeat split; auto. }
  assert (Hsome : forall (m : gmap string (list byte)) v k,
             is_Some (m !! k) -> is_Some (<[key := v]> m !! k)).
  { intros m v k Hm. destruct (decide (key = k)) as [<-|Hne].
    - rewrite lookup_insert_eq. eauto.
    - now rewrite lookup_insert_ne. }
  split; [exact Hb|]. split; [|split].
  - intros k Hs. rewrite Hblob. now apply Hsome.
  - intros k Hs. destruct Hman as [-> | [imj ->]]; [exact Hs|].
    now apply Hsome.
  - intros k Hnot.
    assert (Hne : key <> k) by (intros <-; now apply (Hnot B)).
    rewrite Hblob, lookup_insert_ne by exact Hne. split; [reflexivity|].
    destruct Hman as [-> | [imj ->]]; [reflexivity|].
    now rewrite lookup_insert_ne.
Qed.

(** X11: importing the same stream again is idempotent on the two
    namespaces: the second import returns the same key and leaves blobs,
    manifests and base directory exactly as the first import left them. *)
Theorem X11_reimport_idempotent (f1 f2 : Faults) (now1 now2 : Z)
    (r : Reader) (ds ds1 ds2 : Store) (k1 k2 : string) :
  WriteACI f1 now1 r ds = (Ret (Ok k1), ds1) ->
  WriteACI f2 now2 r ds1 = (Ret (Ok k2), ds2) ->
  k2 = k1 /\ blob ds2 = blob ds1 /\
  imageManifest ds2 = imageManifest ds1 /\ base ds2 = base ds1.
Proof.
  intros H1 H2.
  apply WriteACI_Ok_inv in H1
    as (t1 & d1 & i1 & j1 & x1 & Hd1 & Hz1 & _ & Hm1 & Hk1 & Hj1 & _ & ->).
  apply WriteACI_Ok_inv in H2
    as (t2 & d2 & i2 & j2 & x2 & Hd2 & Hz2 & _ & Hm2 & Hk2 & Hj2 & _ & ->).
  rewrite Hd1 in Hd2. injection Hd2 as <-.
  rewrite Hz1 in Hz2. injection Hz2 as <-.
  rewrite Hm1 in Hm2. injection Hm2 as <-.
  rewrite Hk1 in Hk2. injection Hk2 as <-.
  rewrite Hj1 in Hj2. injection Hj2 as <-.
  cbn [blob imageManifest base]. rewrite !insert_insert_eq. auto.
Qed.

(** X12: imports keep the blob keys full: if every blob key has length
    [lenKey] before a run of [WriteACI], every blob key has it after; a key
    that [WriteACI] returns has length [lenKey], starts with [hashPrefix],
    and resolves to itself in the resulting store. *)
Theorem X12_import_keeps_full_keys (f : Faults) (now : Z) (r : Reader)
    (ds ds' : Store) (out : go (result string)) :
  WriteACI f now r ds = (out, ds') ->
  full_keys (blob ds) ->
  full_keys (blob ds') /\
  (forall key, out = Ret (Ok key) ->
     String.length key = lenKey /\
     has_prefix hashPrefix key /\
     ResolveKey ds' key = Ok key).
Proof.
  intros Hw Hfull.
  assert (Hfull' : full_keys (blob ds')).
  { apply WriteACI_shape in Hw as [Hshape _].
    destruct Hshape as [-> | (key & B & _ & Hk & _ & -> & _)];
      [exact Hfull|].
    apply full_keys_insert; [exact Hfull | now apply key_length in Hk]. }
  split; [exact Hfull'|].
  intros key ->.
  apply WriteACI_Ok_inv in Hw
    as (typ & dr & im & imj & tx & _ & _ & _ & _ & Hk & _ & _ & E).
  split; [now apply key_length in Hk|]. split.
  - apply keyToString_Ret_inv in Hk as [_ ->]. apply has_prefix_append.
  - rewrite <- (append_empty_r key) at 1.
    apply ResolveKey_full_key; [exact Hfull'|].
    rewrite E. cbn [blob]. rewrite lookup_insert_eq. eauto.
Qed.

(** X13: [WriteACI] never returns a bare error: every error carries the
    context of the stage that failed.  It panics only when the sum of the
    hash is not [lenHash] bytes long, and then nothing has been stored; with
    a hash whose sums are always [lenHash] bytes long it never panics. *)
Theorem X13_import_errors (f : Faults) (now : Z) (r : Reader)
    (ds ds' : Store) (out : go (result string)) :
  WriteACI f now r ds = (out, ds') ->
  (forall e, out = Ret (Err e) -> exists ctx cause, e = Errorf ctx cause) /\
  (forall msg, out = Panic msg ->
     ds' = ds /\
     exists B, canonical r = Some B /\ length (sha512_Sum B) <> lenHash) /\
  ((forall b, length (sha512_Sum b) = lenHash) -> forall msg, out <> Panic msg).
Proof.
  intros Hw. apply WriteACI_shape in Hw as (_ & Herr & Hpanic).
  split; [exact Herr|]. split; [exact Hpanic|].
  intros Hsum msg E. destruct (Hpanic msg E) as (_ & B & _ & Hne).
  apply Hne, Hsum.
Qed.

End ImportMore.

Section OpenMore.

Context `{D : Deps}.

Lemma Exec_all_app (s1 s2 : list string) (tx : Tx) :
  Exec_all (s1 ++ s2)%list tx = (tx1 <-? Exec_all s1 tx; Exec_all s2 tx1).
Proof.
  revert tx. induction s1 as [|stmt s1 IH]; intros tx; [reflexivity|].
  cbn. destruct (tx_Exec stmt tx); cbn; [apply IH | reflexivity].
Qed.

(** X14: a store that [NewStore] returns has the given base directory and
    namespaces, and a database whose version reads as [dbVersion]; the
    database is the given one, untouched, when it was populated, and the
    result of running all creation statements on it when it was not. *)
Theorem X14_NewStore_result (f : Faults) (b : string)
    (blobs manifests : gmap string (list byte)) (d : Tx) (ds : Store) :
  NewStore f b blobs manifests d = Ok ds ->
  base ds = b /\ blob ds = blobs /\ imageManifest ds = manifests /\
  getDBVersion (db ds) = Ok dbVersion /\
  ((dbIsPopulated d = Ok true /\ db ds = d) \/
   (dbIsPopulated d = Ok false /\
    Exec_all dbCreateStmts d = Ok (db ds))).
Proof.
  unfold NewStore, DB_Do, NewStore_fn, result_bind. intros E.
  destruct (f_NewDB f); [discriminate E|].
  destruct (f_Begin f); [discriminate E|].
  destruct (dbIsPopulated d) as [ok|] eqn:Hpop; [|discriminate E].
  destruct (if negb ok then Exec_all dbCreateStmts d else Ok d)
    as [tx|] eqn:Hex; [|discriminate E].
  destruct (getDBVersion tx) as [version|] eqn:Hver; [|discriminate E].
  destruct (Z.ltb_spec version dbVersion); [discriminate E|].
  rewrite Z.gtb_ltb in E.
  destruct (Z.ltb_spec dbVersion version); [discriminate E|].
  destruct (f_Commit f); [discriminate E|].
  injection E as <-. cbn [set_db base blob imageManifest db].
  assert (version = dbVersion) as -> by lia.
  repeat split; try assumption.
  destruct ok; cbn in Hex; [left | right].
  - injection Hex as <-. auto.
  - auto.
Qed.

(** X15: on a database that is not populated, [NewStore] runs the creation
    statements in order and stops at the first one that fails: it returns
    that statement's error as it is, returns no store, and leaves the
    database as it was. *)
Theorem X15_creation_failure (f : Faults) (b : string)
    (blobs manifests : gmap string (list byte)) (d tx1 : Tx)
    (s1 s2 : list string) (stmt : string) (e : error) :
  dbIsPopulated d = Ok false ->
  dbCreateStmts = (s1 ++ stmt :: s2)%list ->
  Exec_all s1 d = Ok tx1 ->
  tx_Exec stmt tx1 = Err e ->
  f_NewDB f = None -> f_Begin f = None ->
  NewStore f b blobs manifests d = Err e /\
  snd (DB_Do f NewStore_fn d) = d.
Proof.
  intros Hpop Hst H1 He Hn Hb.
  assert (Hfn : NewStore_fn d = Err e).
  { unfold NewStore_fn, result_bind. rewrite Hpop. cbn [negb].
    rewrite Hst, Exec_all_app. unfold result_bind. rewrite H1. cbn.
    now rewrite He. }
  unfold NewStore, DB_Do. now rewrite Hn, Hb, Hfn.
Qed.

End OpenMore.

Section DumpFacts.

Context `{D : Deps}.

Variable filepath_Join : list string -> string.

Lemma string_of_list_byte_length (l : list byte) :
  String.length (string_of_list_byte l) = length l.
Proof.
  unfold string_of_list_byte. induction l as [|b l IH]; [reflexivity|].
  cbn. now rewrite IH.
Qed.

Lemma Dump_keys_spec (asHex : bool) (bp : string)
    (s : gmap string (list byte)) (keys : list string) (n : nat) :
  (forall k, k ∈ keys -> is_Some (s !! k)) ->
  exists ls,
    Dump_keys asHex bp s keys n = (ls, Ret (n + length keys)) /\
    Forall2 (dumped asHex bp s) keys ls.
Proof.
  revert n. induction keys as [|key keys IH]; intros n Hin.
  - exists []. cbn. rewrite Nat.add_0_r. split; [reflexivity | constructor].
  - destruct (Hin key) as [val Hval]; [left|].
    destruct (IH (S n)) as (ls & Els & Hls);
      [intros k Hk; apply Hin; now right|].
    exists (Entry bp key
              (if asHex then hex (take 128 val)
               else string_of_list_byte (take 128 val)) :: ls).
    split.
    + cbn [Dump_keys]. unfold diskv.Read. rewrite Hval, Els.
      replace (if (128 <? length val)%nat then take 128 val else val)
        with (take 128 val).
      * cbn [length]. do 2 f_equal. lia.
      * destruct (Nat.ltb_spec 128 (length val)); [reflexivity|].
        apply take_ge. lia.
    + constructor; [|exact Hls]. exists val. auto.
Qed.

Lemma Dump_store_spec (asHex : bool) (ds : Store) (t : storeType) :
  exists ls,
    Dump_store filepath_Join asHex ds t
    = ((ls ++ [Total (size (stores ds t))])%list, Ret tt) /\
    Forall2 (dumped asHex (BasePath filepath_Join ds t) (stores ds t))
      (diskv.Keys (stores ds t)) ls.
Proof.
  destruct (Dump_keys_spec asHex (BasePath filepath_Join ds t) (stores ds t)
              (diskv.Keys (stores ds t)) 0) as (ls & E & Hls).
  - intros k Hk. unfold diskv.Keys in Hk.
    apply list_elem_of_fmap in Hk as [[k' v] [-> Hk]].
    apply elem_of_map_to_list in Hk. cbn. eauto.
  - exists ls. unfold Dump_store. rewrite E, length_Keys.
    split; [reflexivity | exact Hls].
Qed.

(** X16: [Dump] never panics.  For the blob namespace and then for the
    manifest namespace it prints one line per stored key, with the value cut
    to its first 128 bytes (so at most 128 characters raw and 256 as hex),
    followed by a total that is the number of keys of the namespace. *)
Theorem X16_Dump (asHex : bool) (ds : Store) :
  snd (Dump filepath_Join asHex ds) = Ret tt /\
  exists l1 l2,
    fst (Dump filepath_Join asHex ds)
    = (l1 ++ [Total (size (blob ds))]
       ++ l2 ++ [Total (size (imageManifest ds))])%list /\
    Forall2 (dumped asHex (BasePath filepath_Join ds blobType) (blob ds))
      (diskv.Keys (blob ds)) l1 /\
    Forall2 (dumped asHex (BasePath filepath_Join ds imageManifestType)
               (imageManifest ds))
      (diskv.Keys (imageManifest ds)) l2 /\
    length l1 = size (blob ds) /\
    length l2 = size (imageManifest ds) /\
    Forall (fun p => forall bp key out, p = Entry bp key out ->
              String.length out <= if asHex then 256 else 128)
      (fst (Dump filepath_Join asHex ds)).
Proof.
  destruct (Dump_store_spec asHex ds blobType) as (l1 & E1 & H1).
  destruct (Dump_store_spec asHex ds imageManifestType) as (l2 & E2 & H2).
  cbn [stores] in *.
  assert (Hbound : forall bp (s : gmap string (list byte)) keys ls,
            Forall2 (dumped asHex bp s) keys ls ->
            Forall (fun p => forall bp key out, p = Entry bp key out ->
                      String.length out <= if asHex then 256 else 128) ls).
  { intros bp s keys ls HF. induction HF as [|k p keys ls Hd _ IH];
      constructor; [|exact IH].
    intros bp' key out ->. destruct Hd as (val & _ & Hp).
    injection Hp as _ _ ->.
    destruct asHex.
    - rewrite hex_length, length_take. lia.
    - rewrite string_of_list_byte_length, length_take. lia. }
  unfold Dump. rewrite E1, E2. cbn [fst snd].
  split; [reflexivity|]. exists l1, l2.
  split; [now rewrite <- !app_assoc|].
  split; [exact H1|]. split; [exact H2|].
  split; [rewrite <- (Forall2_length _ _ _ H1); apply length_Keys|].
  split; [rewrite <- (Forall2_length _ _ _ H2); apply length_Keys|].
  rewrite !Forall_app. repeat split.
  - eapply Hbound; eassumption.
  - constructor; [discriminate | constructor].
  - eapply Hbound; eassumption.
  - constructor; [discriminate | constructor].
Qed.

End DumpFacts.

Section StoreMoreExamples.

Import Example.

Lemma X8_WriteStream_ReadStream_witness :
  ReadStream
    (snd (WriteStream no_faults empty_store "sha512-aaaa"
            {| rdata := B; rerr := io_EOF |})) "sha512-aaaa"
  = Ok {| rdata := B; rerr := io_EOF |}.
Proof.
  apply (X8_WriteStream_ReadStream no_faults empty_store
           (snd (WriteStream no_faults empty_store "sha512-aaaa"
                   {| rdata := B; rerr := io_EOF |}))
           "sha512-aaaa" {| rdata := B; rerr := io_EOF |}).
  vm_compute. reflexivity.
Defined.

Lemma X9_import_round_trip_witness :
  exists content im imj,
    canonical gz = Some content /\
    ManifestFromImage content = Ok im /\
    json_Marshal im = Ok imj /\
    ReadStream (snd (WriteACI no_faults 0 gz empty_store)) K_B
    = Ok {| rdata := content; rerr := io_EOF |} /\
    GetImageManifest (snd (WriteACI no_faults 0 gz empty_store)) K_B =
      match json_Unmarshal imj with
      | Ok im' => Ok im'
      | Err err => Err (Errorf "error unmarshalling image manifest" err)
      end /\
    WriteACIInfo (db empty_store) (mkACIInfo K_B (Name im) 0)
    = Ok (db (snd (WriteACI no_faults 0 gz empty_store))).
Proof.
  apply (X9_import_round_trip no_faults 0 gz empty_store
           (snd (WriteACI no_faults 0 gz empty_store)) K_B).
  vm_compute. reflexivity.
Defined.

Lemma X10_import_frame_witness :
  base (snd (WriteACI write_fails 0 gz two_store)) = base two_store /\
  is_Some (blob (snd (WriteACI write_fails 0 gz two_store)) !! "sha512-aaaa").
Proof.
  split.
  - apply (X10_import_frame write_fails 0 gz two_store
             (snd (WriteACI write_fails 0 gz two_store))
             (fst (WriteACI write_fails 0 gz two_store))).
    vm_compute. reflexivity.
  - apply (X10_import_frame write_fails 0 gz two_store
             (snd (WriteACI write_fails 0 gz two_store))
             (fst (WriteACI write_fails 0 gz two_store)));
      vm_compute; eauto.
Defined.

Lemma X11_reimport_idempotent_witness :
  K_B = K_B /\
  blob (snd (WriteACI no_faults 9 gz
               (snd (WriteACI no_faults 0 gz empty_store))))
  = blob (snd (WriteACI no_faults 0 gz empty_store)) /\
  imageManifest (snd (WriteACI no_faults 9 gz
                        (snd (WriteACI no_faults 0 gz empty_store))))
  = imageManifest (snd (WriteACI no_faults 0 gz empty_store)) /\
  base (snd (WriteACI no_faults 9 gz
               (snd (WriteACI no_faults 0 gz empty_store))))
  = base (snd (WriteACI no_faults 0 gz empty_store)).
Proof.
  apply (X11_reimport_idempotent no_faults no_faults 0 9 gz empty_store
           (snd (WriteACI no_faults 0 gz empty_store))
           (snd (WriteACI no_faults 9 gz
                   (snd (WriteACI no_faults 0 gz empty_store))))
           K_B K_B);
    vm_compute; reflexivity.
Defined.

Lemma X12_import_keeps_full_keys_witness :
  full_keys (blob (snd (WriteACI no_faults 0 gz empty_store))) /\
  String.length K_B = lenKey /\
  has_prefix hashPrefix K_B /\
  ResolveKey (snd (WriteACI no_faults 0 gz empty_store)) K_B = Ok K_B.
Proof.
  assert (Hrun : WriteACI no_faults 0 gz empty_store
                 = (Ret (Ok K_B), snd (WriteACI no_faults 0 gz empty_store)))
    by (vm_compute; reflexivity).
  assert (Hfull : full_keys (blob empty_store)).
  { intros k [v Hk]. cbn in Hk. rewrite lookup_empty in Hk. discriminate. }
  destruct (X12_import_keeps_full_keys no_faults 0 gz empty_store _ _
              Hrun Hfull) as [H1 H2].
  split; [exact H1 | apply H2; reflexivity].
Defined.

Lemma X13_import_errors_witness :
  (exists ctx cause,
     Errorf "error reading image header" (ExtError "connection reset")
     = Errorf ctx cause) /\
  (forall msg, fst (WriteACI no_faults 0 gz empty_store) <> Panic msg).
Proof.
  split.
  - apply (X13_import_errors no_faults 0 broken empty_store empty_store
             (Ret (Err (Errorf "error reading image header"
                          (ExtError "connection reset")))));
      [vm_compute; reflexivity | reflexivity].
  - apply (X13_import_errors no_faults 0 gz empty_store
             (snd (WriteACI no_faults 0 gz empty_store))
             (fst (WriteACI no_faults 0 gz empty_store)));
      [vm_compute; reflexivity|].
    intros b. cbn [sha512_Sum deps]. unfold sum64.
    rewrite length_take, length_app, repeat_length.
    change lenHash with 64. lia.
Defined.

Lemma X14_NewStore_result_witness :
  getDBVersion
    (db (mkStore (D:=deps) "/var/lib/rkt" ∅ ∅ (Some 1%Z, [])))
  = Ok dbVersion /\
  ((@dbIsPopulated deps (None, []) = Ok true /\
    db (mkStore (D:=deps) "/var/lib/rkt" ∅ ∅ (Some 1%Z, [])) = (None, []))
   \/
   (@dbIsPopulated deps (None, []) = Ok false /\
    Exec_all dbCreateStmts (None, [])
    = Ok (db (mkStore (D:=deps) "/var/lib/rkt" ∅ ∅ (Some 1%Z, []))))).
Proof.
  apply (X14_NewStore_result (D:=deps) no_faults "/var/lib/rkt" ∅ ∅ (None, [])
           (mkStore (D:=deps) "/var/lib/rkt" ∅ ∅ (Some 1%Z, []))).
  reflexivity.
Defined.

Lemma X15_creation_failure_witness :
  NewStore (D:=deps_exec_fails) no_faults "/var/lib/rkt" ∅ ∅ (None, [])
  = Err (ExtError "table exists") /\
  snd (DB_Do (D:=deps_exec_fails) no_faults NewStore_fn (None, []))
  = (None, []).
Proof.
  apply (X15_creation_failure (D:=deps_exec_fails) no_faults "/var/lib/rkt"
           ∅ ∅ (None, []) (Some 1%Z, [])
           ["CREATE TABLE version"] ["CREATE TABLE remote"]
           "CREATE TABLE aciinfo" (ExtError "table exists"));
    reflexivity.
Defined.

End StoreMoreExamples.
